(** * Unpoly: opening layers, response documents and viewport reveal

    A shallow embedding of three classes of the Unpoly front-end library

      - [up.RevealMotion]   (src/unpoly/classes/reveal_motion.js)
      - [up.ResponseDoc]    (unpoly/classes/response_doc.coffee)
      - [up.Change.OpenLayer]

    together with the helpers of [up.util] they call, and the properties
    C1 - C10 of the specification stated and settled against them.

    Conventions of the embedding.

      - JavaScript numbers are exact rationals ([Q]); NaN and the infinities
        are left out.  Comparison of two numbers is [Qeq], never Leibniz
        equality.  The sums of the code are rounded to double precision,
        the sums of [Q] are not: a property that needs the exact value of a
        sum is stated for whole numbers of pixels of at most 2^50, on which
        the numbers of the code stay whole and within the range that double
        precision holds exactly ([whole_pixels_stay_whole]); a
        property that follows the comparisons and branches of the code is
        stated for all numbers.
      - A mutable object is a record that is passed through; an assignment to
        a property is a functional update of the record.
      - A method that throws returns the exception instead of a value.
      - The browser's DOM and the collaborators of Unpoly that are called but
        not defined in the embedded sources are parameters: records of
        functions (for the DOM) or recorded answers (for listeners). *)

From Stdlib Require Import QArith Qminmax Qabs Qround Lqa.
From Stdlib Require Import List Permutation Ascii String Bool Arith ZArith Lia.
Import ListNotations.

(** ** Numbers *)

Module Num.
Local Open Scope Q_scope.

(** [a < b], [a > b] and [a !== b] on JavaScript numbers. *)
Definition ltb (a b : Q) : bool := negb (Qle_bool b a).
Definition gtb (a b : Q) : bool := ltb b a.
Definition neqb (a b : Q) : bool := negb (Qeq_bool a b).
End Num.

(** ** Exceptions *)

Module Error.
(** Modelled from the spec: [up.fail] and [up.error] are not part of the
    embedded sources.  [up.fail(message)] throws an error that carries the
    message; the error taxonomy adds NotApplicable (what [@notApplicable()]
    builds) and Aborted (what [up.error.aborted(message)] builds). *)
Inductive t : Type :=
| Failed (message : string)
| NotApplicable
| Aborted (message : string).
End Error.

(** ** up.Rect *)

Module Rect.
Local Open Scope Q_scope.

(** Modelled from the spec: the class [up.Rect] is not part of the embedded
    sources.  The data model gives it as the value {left, top, width,
    height} with [bottom] and [right] derived, so a rectangle whose [top]
    or [height] was assigned answers [bottom] from the new values. *)
Record t : Type := make
  { left : Q;
    top : Q;
    width : Q;
    height : Q }.

Definition bottom (r : t) : Q := top r + height r.
Definition right (r : t) : Q := left r + width r.

Definition set_top (r : t) (v : Q) : t :=
  {| left := left r; top := v; width := width r; height := height r |}.
Definition set_height (r : t) (v : Q) : t :=
  {| left := left r; top := top r; width := width r; height := v |}.
End Rect.

(** ** up.util (the functions used by the classes below) *)

Module Util.
Local Open Scope Q_scope.

(** The values an option of [up.RevealMotion] may hold:
    number | function | falsy. *)
Inductive value (A : Type) : Type :=
| Falsy
| Number (q : Q)
| Function (f : A -> Q).
Arguments Falsy {A}.
Arguments Number {A} q.
Arguments Function {A} f.

(** [typeof(object) == 'function'] *)
Definition isFunction {A} (object : value A) : bool :=
  match object with Function _ => true | _ => false end.

(** [typeof(object) == 'number' || object instanceof Number] *)
Definition isNumber {A} (object : value A) : bool :=
  match object with Number _ => true | _ => false end.

(** What [if (v)] tests: zero is falsy, every function is truthy. *)
Definition truthy {A} (v : value A) : bool :=
  match v with
  | Falsy => false
  | Number q => Num.neqb q 0
  | Function _ => true
  end.

(** [evalOption = (value, args...) -> if isFunction(value) then
    value(args...) else value] *)
Definition evalOption {A} (v : value A) (arg : A) : value A :=
  if isFunction v then
    match v with
    | Function f => Number (f arg)
    | _ => v
    end
  else v.

(** [Math.min(a, b)] where [b] came out of [evalOption]. *)
Definition Math_min {A} (a : Q) (b : value A) : Q :=
  match b with
  | Number q => Qmin a q
  | _ => a
  end.

(** [n < v] for an option [v] already known to be a number. *)
Definition below {A} (n : Q) (v : value A) : bool :=
  match v with
  | Number q => Num.ltb n q
  | _ => false
  end.
End Util.

(** ** up.RevealMotion *)

Module RevealMotion.
Local Open Scope Q_scope.
Import Util.

(** An element, as far as the reveal looks at it: its bounding client
    rectangle and the answer of [e.isVisible]. *)
Record Element : Type :=
  { boundingClientRect : Rect.t;
    isVisible : bool }.

(** [up.Rect.fromElement(element)] *)
Definition fromElement (el : Element) : Rect.t := boundingClientRect el.

(** The viewport: an element with a scroll position.  [isRoot],
    [rootWidth] and [rootHeight] are the answers of [up.viewport.isRoot],
    [up.viewport.rootWidth] and [up.viewport.rootHeight]. *)
Record Viewport : Type :=
  { viewportElement : Element;
    isRoot : bool;
    rootWidth : Q;
    rootHeight : Q;
    scrollTop : Q }.

(** The fields the constructor sets.  [_topObstructions] and
    [_bottomObstructions] hold the elements that
    [up.fragment.all(selectors.join(), { layer })] finds for the fixed-top
    and the fixed-bottom selectors in the layer of the viewport, in
    document order. *)
Record t : Type :=
  { _element : Element;
    _viewport : Viewport;
    _snap : value Element;
    _padding : Q;
    _top : bool;
    _max : value Element;
    _topObstructions : list Element;
    _bottomObstructions : list Element }.

(** What a call of [start] does: it throws through [up.fail], or it ends
    with [newScrollTop] decided and the list of offsets it passed to
    [viewport.scrollTo] (at most one). *)
Inductive result : Type :=
| Thrown (error : Error.t)
| Finished (newScrollTop : Q) (scrollTo : list Q).

Definition _getViewportRect (m : t) : Rect.t :=
  if isRoot (_viewport m) then
    Rect.make 0 0 (rootWidth (_viewport m)) (rootHeight (_viewport m))
  else
    fromElement (viewportElement (_viewport m)).

Definition _addPadding (m : t) (elementRect : Rect.t) : Rect.t :=
  let elementRect :=
    Rect.set_top elementRect (Rect.top elementRect - _padding m) in
  Rect.set_height elementRect (Rect.height elementRect + 2 * _padding m).

Definition _selectObstructions (elements : list Element) : list Element :=
  filter isVisible elements.

(** The body of the first loop of [_substractObstructions]. *)
Definition subtractTop (viewportRect : Rect.t) (obstruction : Element)
  : Rect.t :=
  let obstructionRect := fromElement obstruction in
  let diff := Rect.bottom obstructionRect - Rect.top viewportRect in
  if Num.gtb diff 0 then
    let viewportRect :=
      Rect.set_top viewportRect (Rect.top viewportRect + diff) in
    Rect.set_height viewportRect (Rect.height viewportRect - diff)
  else viewportRect.

(** The body of the second loop. *)
Definition subtractBottom (viewportRect : Rect.t) (obstruction : Element)
  : Rect.t :=
  let obstructionRect := fromElement obstruction in
  let diff := Rect.bottom viewportRect - Rect.top obstructionRect in
  if Num.gtb diff 0 then
    Rect.set_height viewportRect (Rect.height viewportRect - diff)
  else viewportRect.

Definition _substractObstructions (m : t) (viewportRect : Rect.t) : Rect.t :=
  let viewportRect :=
    fold_left subtractTop (_selectObstructions (_topObstructions m))
              viewportRect in
  fold_left subtractBottom (_selectObstructions (_bottomObstructions m))
            viewportRect.

(** The rectangle of the element after the cap and the padding
    (lines 24 - 30 of [start]). *)
Definition paddedElementRect (m : t) : Rect.t :=
  let elementRect := fromElement (_element m) in
  let elementRect :=
    if truthy (_max m) then
      let maxPixels := evalOption (_max m) (_element m) in
      Rect.set_height elementRect
                      (Math_min (Rect.height elementRect) maxPixels)
    else elementRect in
  _addPadding m elementRect.

(** The rectangle of the viewport after the obstructions were taken off
    (lines 23 and 31). *)
Definition reducedViewportRect (m : t) : Rect.t :=
  _substractObstructions m (_getViewportRect m).

(** The chain of [if / else if] that decides [newScrollTop]
    (lines 38 - 59). *)
Definition decideScrollTop (alignTop : bool) (elementRect viewportRect : Rect.t)
           (originalScrollTop : Q) : Q :=
  let newScrollTop := originalScrollTop in
  if alignTop || Num.gtb (Rect.height elementRect) (Rect.height viewportRect)
  then
    let diff := Rect.top elementRect - Rect.top viewportRect in
    newScrollTop + diff
  else if Num.ltb (Rect.top elementRect) (Rect.top viewportRect) then
    newScrollTop - (Rect.top viewportRect - Rect.top elementRect)
  else if Num.gtb (Rect.bottom elementRect) (Rect.bottom viewportRect) then
    newScrollTop + (Rect.bottom elementRect - Rect.bottom viewportRect)
  else
    newScrollTop.

(** The condition of the snap (line 61). *)
Definition snaps (snap : value Element) (elementRect viewportRect : Rect.t)
           (newScrollTop : Q) : bool :=
  isNumber snap && below newScrollTop snap
  && Num.ltb (Rect.top elementRect) (0.5 * Rect.height viewportRect).

(** Lines 61 - 63. *)
Definition snapScrollTop (snap : value Element)
           (elementRect viewportRect : Rect.t) (newScrollTop : Q) : Q :=
  if snaps snap elementRect viewportRect newScrollTop then 0
  else newScrollTop.

(** [newScrollTop] before the snap, for a motion whose viewport has an area. *)
Definition rawScrollTop (m : t) : Q :=
  decideScrollTop (_top m) (paddedElementRect m) (reducedViewportRect m)
                  (scrollTop (_viewport m)).

Definition start (m : t) : result :=
  let elementRect := paddedElementRect m in
  let viewportRect := reducedViewportRect m in
  if Num.ltb (Rect.height viewportRect) 0 then
    Thrown (Error.Failed "Viewport has no visible area")
  else
    let originalScrollTop := scrollTop (_viewport m) in
    let newScrollTop :=
      decideScrollTop (_top m) elementRect viewportRect originalScrollTop in
    let newScrollTop :=
      snapScrollTop (_snap m) elementRect viewportRect newScrollTop in
    if Num.neqb newScrollTop originalScrollTop then
      Finished newScrollTop [newScrollTop]
    else
      Finished newScrollTop [].

(** The motion [m] on a page that has one more element matching a
    fixed-top selector, as the [i]-th match; everything else is equal. *)
Definition addTopObstruction (i : nat) (obstruction : Element) (m : t) : t :=
  {| _element := _element m;
     _viewport := _viewport m;
     _snap := _snap m;
     _padding := _padding m;
     _top := _top m;
     _max := _max m;
     _topObstructions :=
       firstn i (_topObstructions m)
       ++ obstruction :: skipn i (_topObstructions m);
     _bottomObstructions := _bottomObstructions m |}.

(** *** Concrete motions *)

Definition box (t h : Q) : Element :=
  {| boundingClientRect := Rect.make 0 t 100 h; isVisible := true |}.

Definition rootViewport (h scroll : Q) : Viewport :=
  {| viewportElement := box 0 h; isRoot := true;
     rootWidth := 100; rootHeight := h; scrollTop := scroll |}.

Definition innerViewport (t h scroll : Q) : Viewport :=
  {| viewportElement := box t h; isRoot := false;
     rootWidth := 100; rootHeight := 2000; scrollTop := scroll |}.

Definition motion (el : Element) (vp : Viewport) (snap : value Element)
           (alignTop : bool) (tops : list Element) : t :=
  {| _element := el; _viewport := vp; _snap := snap; _padding := 0;
     _top := alignTop; _max := Falsy;
     _topObstructions := tops; _bottomObstructions := [] |}.

(** *** Names for what the properties speak of *)

(** The motion [m] on a page that has one more element matching a
    fixed-bottom selector, as the [i]-th match; everything else is equal. *)
Definition addBottomObstruction (i : nat) (obstruction : Element) (m : t)
  : t :=
  {| _element := _element m;
     _viewport := _viewport m;
     _snap := _snap m;
     _padding := _padding m;
     _top := _top m;
     _max := _max m;
     _topObstructions := _topObstructions m;
     _bottomObstructions :=
       firstn i (_bottomObstructions m)
       ++ obstruction :: skipn i (_bottomObstructions m) |}.

(** The motion [m] with other matches for the fixed-top and the
    fixed-bottom selectors. *)
Definition withObstructions (tops bottoms : list Element) (m : t) : t :=
  {| _element := _element m;
     _viewport := _viewport m;
     _snap := _snap m;
     _padding := _padding m;
     _top := _top m;
     _max := _max m;
     _topObstructions := tops;
     _bottomObstructions := bottoms |}.

(** Where a rectangle of the content is once the viewport has scrolled
    further down by [delta]: the content moves up by [delta], the viewport
    and the fixed obstructions stay. *)
Definition scrolledBy (delta : Q) (r : Rect.t) : Rect.t :=
  Rect.set_top r (Rect.top r - delta).

(** A rectangle lies inside another one, between its top and its bottom. *)
Definition inside (r v : Rect.t) : Prop :=
  Rect.top v <= Rect.top r /\ Rect.bottom r <= Rect.bottom v.

(** Lines 65 - 67: the calls of [scrollTo] once [newScrollTop] is
    decided. *)
Definition scrollCalls (originalScrollTop newScrollTop : Q) : list Q :=
  if Num.neqb newScrollTop originalScrollTop then [newScrollTop] else [].

(** The upper half of a rectangle, in the words of the specification: a
    height [y] lies in it when it is at the top of the rectangle or below,
    and above the middle between the top and the bottom. *)
Definition inUpperHalf (y : Q) (r : Rect.t) : Prop :=
  Rect.top r <= y /\ y < Rect.top r + 0.5 * Rect.height r.

(** *** Whole pixels *)

Definition pixelLimit : Z := 2 ^ 50.

(** A whole number of at most 2^50 in magnitude. *)
Definition whole (q : Q) : bool :=
  Qeq_bool q (inject_Z (Qfloor q))
  && (Z.abs (Qfloor q) <=? pixelLimit)%Z.

(** The two fields of a rectangle that [start] reads. *)
Definition wholeRect (r : Rect.t) : bool :=
  whole (Rect.top r) && whole (Rect.height r).

Definition wholeElement (el : Element) : bool :=
  wholeRect (fromElement el).

(** The cap, when [start] reads it. *)
Definition wholeCap (m : t) : bool :=
  if truthy (_max m) then
    match evalOption (_max m) (_element m) with
    | Number q => whole q
    | _ => true
    end
  else true.

(** Every number that [start] reads and adds to another one is a whole
    number of pixels: the rectangles of the element, of the viewport and of
    the obstructions, the scroll position, the padding and the cap.  (The
    snap threshold is only compared.) *)
Definition wholePixels (m : t) : bool :=
  wholeElement (_element m)
  && wholeRect (_getViewportRect m)
  && whole (scrollTop (_viewport m))
  && whole (_padding m)
  && wholeCap m
  && forallb wholeElement (_topObstructions m)
  && forallb wholeElement (_bottomObstructions m).

(** A whole number of at most [k] times 2^50 in magnitude; with [k] up
    to 8 a number that double precision holds exactly. *)
Definition wholeWithin (k : Z) (q : Q) : Prop :=
  exists z : Z, q == inject_Z z /\ (Z.abs z <= k * pixelLimit)%Z.

(** The two loops keep the top and the bottom of the viewport rectangle
    whole: the top is the top it had or the bottom of an obstruction, the
    bottom is the bottom it had or the top of an obstruction. *)
Definition wholeEnds (v : Rect.t) : Prop :=
  wholeWithin 2 (Rect.top v) /\ wholeWithin 2 (Rect.bottom v).
End RevealMotion.

(** ** The constructor of up.RevealMotion *)

Module RevealMotionConstructor.
Local Open Scope Q_scope.
Local Open Scope string_scope.
Import Util.

(** The options of one reveal.  [None] is a property that is absent,
    [undefined] or [null]; every other value, also a falsy one, is
    [Some]. *)
Record options : Type :=
  { viewport : option RevealMotion.Viewport;
    snap : option (value RevealMotion.Element);
    revealSnap : option (value RevealMotion.Element);
    padding : option Q;
    revealPadding : option Q;
    top : option bool;
    revealTop : option bool;
    max : option (value RevealMotion.Element);
    revealMax : option (value RevealMotion.Element) }.

(** [up.viewport.config], as far as the constructor reads it. *)
Record config : Type :=
  { configRevealSnap : value RevealMotion.Element;
    configRevealPadding : Q;
    configRevealTop : bool;
    configRevealMax : value RevealMotion.Element;
    fixedTopSelectors : list string;
    fixedBottomSelectors : list string }.

(** The page: [up.viewport.get(element)] and
    [up.fragment.all(selector, { layer: up.layer.get(viewport) })]. *)
Record page : Type :=
  { closestViewport : RevealMotion.Element -> RevealMotion.Viewport;
    fragmentAll : string -> RevealMotion.Viewport
                  -> list RevealMotion.Element }.

(** [a ?? b] *)
Definition nullish {A} (a : option A) (b : A) : A :=
  match a with
  | Some v => v
  | None => b
  end.

(** What [option ?? prefixed ?? configured] is: the option when it is
    given, else the prefixed option when that is given, else the
    configured value. *)
Definition firstGiven {A} (given prefixed : option A) (configured result : A)
  : Prop :=
  (forall v, given = Some v -> result = v)
  /\ (given = None -> forall v, prefixed = Some v -> result = v)
  /\ (given = None -> prefixed = None -> result = configured).

(** [selectors.join()] *)
Definition join (selectors : list string) : string :=
  String.concat "," selectors.

(** The constructor.  The source keeps the two lists of selectors and
    looks their elements up at the beginning of [start]; here the elements
    are looked up at once, on the same page. *)
Definition constructor (pg : page) (cfg : config)
           (element : RevealMotion.Element) (o : options) : RevealMotion.t :=
  let viewport := nullish (viewport o) (closestViewport pg element) in
  {| RevealMotion._element := element;
     RevealMotion._viewport := viewport;
     RevealMotion._snap :=
       nullish (snap o) (nullish (revealSnap o) (configRevealSnap cfg));
     RevealMotion._padding :=
       nullish (padding o)
               (nullish (revealPadding o) (configRevealPadding cfg));
     RevealMotion._top :=
       nullish (top o) (nullish (revealTop o) (configRevealTop cfg));
     RevealMotion._max :=
       nullish (max o) (nullish (revealMax o) (configRevealMax cfg));
     RevealMotion._topObstructions :=
       fragmentAll pg (join (fixedTopSelectors cfg)) viewport;
     RevealMotion._bottomObstructions :=
       fragmentAll pg (join (fixedBottomSelectors cfg)) viewport |}.
End RevealMotionConstructor.

(** ** The DOM and the HTML helpers *)

Module Dom.
(** What [up.HTMLWrapper] offers to [up.ResponseDoc].  The class is not
    part of the embedded sources; its three methods are parameters. *)
Record HTMLWrapper (Node : Type) : Type :=
  { wrap : string -> string;
    strip : string -> string;
    unwrap : Node -> Node }.
Arguments wrap {Node} _ _.
Arguments strip {Node} _ _.
Arguments unwrap {Node} _ _.

(** The functions of the browser and of [up.element] that the classes
    call.  A parser answers [None] where the JavaScript function answers
    [undefined] (for instance [createFromHTML] on markup without an
    element).  A function that changes a node returns the changed node. *)
Record api : Type :=
  { Node : Type;
    newHTMLWrapper : string -> HTMLWrapper Node;
    createDocumentFromHTML : string -> option Node;
    createFromHTML : string -> option Node;
    createFromSelector : string -> Node;
    createElement : string -> Node;
    setInnerHTML : Node -> string -> Node;
    appendChild : Node -> Node -> Node;
    querySelector : Node -> string -> option Node;
    textContent : Node -> string;
    subtree : Node -> string -> list Node }.
End Dom.

(** ** up.ResponseDoc *)

Module ResponseDoc.
Import Dom.
Local Open Scope string_scope.
Local Open Scope list_scope.

Section WithDom.
Variable dom : Dom.api.
Local Abbreviation Node := (Dom.Node dom).

(** A payload option: absent, markup, or a node that was parsed already. *)
Inductive payload : Type :=
| Missing
| Markup (html : string)
| Parsed (node : Node).

Record options : Type :=
  { document : payload;
    fragment : payload;
    content : payload;
    target : option string }.

(** [u.isString(value)] *)
Definition isString (value : payload) : bool :=
  match value with Markup _ => true | _ => false end.

(** The object.  [title] is [None] for [undefined]; [titleParsed] is
    [false] until it is assigned.  [rootQueries] is not a field of
    the class: it lists the selectors that were passed to
    [@root.querySelector], oldest first. *)
Record t : Type :=
  { noscriptWrapper : HTMLWrapper Node;
    scriptStripper : HTMLWrapper Node;
    root : Node;
    title : option string;
    titleParsed : bool;
    rootQueries : list string }.

Section Parsing.
Variables noscriptWrapper' scriptStripper' : HTMLWrapper Node.

Definition wrapHTML (html : string) : string :=
  let html := wrap noscriptWrapper' html in
  let html := strip scriptStripper' html in
  html.

Definition parse (value : payload) (parseFn : string -> option Node)
  : option Node :=
  match value with
  | Markup html => parseFn (wrapHTML html)
  | Parsed node => Some node
  | Missing => None
  end.

Definition parseDocument (o : options) : option Node :=
  parse (document o) (createDocumentFromHTML dom).

Definition parseFragment (o : options) : option Node :=
  parse (fragment o) (createFromHTML dom).

(** [options.content || '']: markup (the empty string when the option is
    absent) or a node. *)
Definition contentOrEmpty (o : options) : string + Node :=
  match content o with
  | Missing => inl ""
  | Markup html => inl html
  | Parsed node => inr node
  end.

(** [options.target || up.fail(...)]: the empty string is falsy. *)
Definition targetOrFail (o : options) : Error.t + string :=
  match target o with
  | Some (String c s) => inr (String c s)
  | Some EmptyString | None =>
      inl (Error.Failed
             "must pass a { target } when passing { content }")
  end.

Definition parseContent (o : options) : Error.t + Node :=
  let content := contentOrEmpty o in
  match targetOrFail o with
  | inl e => inl e
  | inr target =>
      let matchingElement := createFromSelector dom target in
      match content with
      | inl html => inr (setInnerHTML dom matchingElement (wrapHTML html))
      | inr node => inr (appendChild dom matchingElement node)
      end
  end.

(** [@parseDocument(options) || @parseFragment(options) ||
    @parseContent(options)] *)
Definition parseRoot (o : options) : Error.t + Node :=
  match parseDocument o with
  | Some node => inr node
  | None =>
      match parseFragment o with
      | Some node => inr node
      | None => parseContent o
      end
  end.
End Parsing.

Definition constructor (o : options) : Error.t + t :=
  let noscriptWrapper := newHTMLWrapper dom "noscript" in
  let scriptStripper := newHTMLWrapper dom "script" in
  match parseRoot noscriptWrapper scriptStripper o with
  | inl e => inl e
  | inr node =>
      inr {| noscriptWrapper := noscriptWrapper;
             scriptStripper := scriptStripper;
             root := node;
             title := None;
             titleParsed := false;
             rootQueries := [] |}
  end.

Definition getTitle (d : t) : option string * t :=
  if negb (titleParsed d) then
    let found := querySelector dom (root d) "head title" in
    let d :=
      {| noscriptWrapper := noscriptWrapper d;
         scriptStripper := scriptStripper d;
         root := root d;
         title := option_map (textContent dom) found;
         titleParsed := true;
         rootQueries := rootQueries d ++ ["head title"] |} in
    (title d, d)
  else
    (title d, d).

Definition select (d : t) (selector : string) : option Node :=
  hd_error (subtree dom (root d) selector).

Definition finalizeElement (d : t) (element : Node) : Node :=
  unwrap (noscriptWrapper d) element.

(** [n] calls of [getTitle] in a row: the answers, oldest first, and the
    object after the last call. *)
Fixpoint getTitleTimes (n : nat) (d : t) : list (option string) * t :=
  match n with
  | O => ([], d)
  | S n' =>
      let (answer, d) := getTitle d in
      let (answers, d) := getTitleTimes n' d in
      (answer :: answers, d)
  end.
End WithDom.

Arguments Missing {dom}.
Arguments Markup {dom} html.
Arguments Parsed {dom} node.
End ResponseDoc.

(** ** The layer stack *)

Module LayerStack.
(** Modelled from the spec: [up.layer.stack], [up.layer.build] and
    [up.Layer#peel] are not part of the embedded sources.  The data model
    gives a layer a mode, a back-reference to its parent and a lifecycle
    flag {opening, open, closing, closed}; the stack is the ordered
    sequence of layers, root first, current layer last.  Push puts a layer
    on top.  Peel begins closing the live children of a layer and does not
    wait for them: they stay in the sequence with the flag [Closing]. *)
Inductive lifecycle : Type := Opening | Open | Closing | Closed.

Record Layer : Type :=
  { id : nat;
    parent : option nat;
    mode : string;
    state : lifecycle }.

Definition t : Type := list Layer.

Definition set_state (l : Layer) (s : lifecycle) : Layer :=
  {| id := id l; parent := parent l; mode := mode l; state := s |}.

Definition isLive (l : Layer) : bool :=
  match state l with
  | Opening | Open => true
  | Closing | Closed => false
  end.

Definition isChildOf (base : nat) (l : Layer) : bool :=
  match parent l with
  | Some p => Nat.eqb p base
  | None => false
  end.

Definition isLiveChildOf (base : nat) (l : Layer) : bool :=
  isChildOf base l && isLive l.

Definition liveChildren (base : nat) (stack : t) : list Layer :=
  filter (isLiveChildOf base) stack.

(** Modelled from the spec: push puts the layer on top of the stack; it
    is the only change of the shape of the stack. *)
Definition push (stack : t) (l : Layer) : t := stack ++ [l].

(** Modelled from the spec: peel begins closing each live child of the
    layer and does not wait for it. *)
Definition peel (base : nat) (stack : t) : t :=
  map (fun l => if isLiveChildOf base l then set_state l Closing else l)
      stack.

(** [layer.opening = false] on the layer object with the given identity:
    a layer that is opening is open from then on. *)
Definition clearOpening (layer : nat) (stack : t) : t :=
  map (fun l =>
         if Nat.eqb (id l) layer then
           match state l with
           | Opening => set_state l Open
           | _ => l
           end
         else l)
      stack.

(** An identity that no layer of the stack has, and that differs from
    [other]: the identity of a newly built object. *)
Definition freshId (other : nat) (stack : t) : nat :=
  S (Nat.max other (list_max (map id stack))).

(** At most one live child for every layer. *)
Definition singleChild (stack : t) : Prop :=
  forall base, (List.length (liveChildren base stack) <= 1)%nat.
End LayerStack.

(** ** up.Change.OpenLayer *)

Module OpenLayer.
Import LayerStack.
Local Open Scope string_scope.
Local Open Scope list_scope.

Section WithDom.
Variable dom : Dom.api.
Local Abbreviation Node := (Dom.Node dom).

(** The properties the constructor copies from the options. *)
Record t : Type :=
  { target : string;
    mode : string;
    origin : option Node;
    baseLayer : nat;
    source : option string }.

(** What the collaborators that are not embedded answer during one call
    of [execute]: whether the base layer is closed, whether a listener
    prevented [up:layer:open], whether [@handleLayerChangeRequests()]
    throws because the response closed the layer, and whether
    [@abortWhenLayerClosed()] throws because a listener of
    [up:layer:opened] closed it.  A listener is taken by its verdict: what
    else it does to the page or to the stack is outside [execute]. *)
Record answers : Type :=
  { baseLayerIsClosed : bool;
    openEventPrevented : bool;
    layerChangeRequestsAbort : bool;
    layerClosedAfterOpened : bool }.

(** The calls that leave [execute], in the order they are made. *)
Inductive effect : Type :=
| CreateElement (tagName : string)
| Select (selector : string)
| IsClosed (layer : nat)
| Puts
| GetTitle
| Build
| Emit (name : string)
| Peel (layer : nat)
| Push (layer : nat)
| CreateElements
| SetupHandlers
| SaveHistory
| UpdateHistory
| SetSource
| FinalizeElement
| Hello
| HandleLayerChangeRequests
| HandleScroll
| StartOpenAnimation
| AbortWhenLayerClosed.

Record world : Type :=
  { stack : LayerStack.t;
    responseDoc : ResponseDoc.t dom;
    trace : list effect }.

Record RenderResult : Type :=
  { layer : Layer;
    fragments : list Node }.

(** Computations that read and change the world and may throw.  What was
    done before a throw stays done. *)
Definition M (A : Type) : Type := world -> (Error.t + A) * world.

Definition ret {A} (a : A) : M A := fun w => (inr a, w).

Definition bind {A B} (m : M A) (k : A -> M B) : M B :=
  fun w =>
    match m w with
    | (inl e, w') => (inl e, w')
    | (inr a, w') => k a w'
    end.

Definition throw {A} (e : Error.t) : M A := fun w => (inl e, w).

Definition call (e : effect) : M unit :=
  fun w =>
    let (stack, responseDoc, trace) := w in
    (inr tt,
     {| stack := stack; responseDoc := responseDoc;
        trace := trace ++ [e] |}).

Definition getStack : M LayerStack.t := fun w => (inr (stack w), w).

Definition changeStack (f : LayerStack.t -> LayerStack.t) : M unit :=
  fun w =>
    let (stack, responseDoc, trace) := w in
    (inr tt,
     {| stack := f stack; responseDoc := responseDoc; trace := trace |}).

Definition getResponseDoc : M (ResponseDoc.t dom) :=
  fun w => (inr (responseDoc w), w).

Definition setResponseDoc (d : ResponseDoc.t dom) : M unit :=
  fun w =>
    let (stack, _, trace) := w in
    (inr tt, {| stack := stack; responseDoc := d; trace := trace |}).
End WithDom.

Arguments target {dom} _.
Arguments mode {dom} _.
Arguments origin {dom} _.
Arguments baseLayer {dom} _.
Arguments source {dom} _.
Arguments stack {dom} _.
Arguments responseDoc {dom} _.
Arguments trace {dom} _.
Arguments layer {dom} _.
Arguments fragments {dom} _.
Arguments call {dom} e.
Arguments getStack {dom}.
Arguments changeStack {dom} f.
Arguments getResponseDoc {dom}.
Arguments setResponseDoc {dom} d.
Arguments ret {dom A} a.
Arguments bind {dom A B} m k.
Arguments throw {dom A} e.

Notation "x <- m ;; k" := (bind m (fun x => k))
  (at level 61, m at next level, right associativity).
Notation "m ;; k" := (bind m (fun _ => k))
  (at level 61, right associativity).

Section Execute.
Variable dom : Dom.api.
Local Abbreviation Node := (Dom.Node dom).

(** [up.layer.build(u.merge(@options, opening: true))].
    Modelled from the spec: [up.layer.build] is not part of the embedded
    sources.  It builds a new layer, not yet attached to the stack, from the
    merged options: a new object, of the mode asked for, whose parent is
    the base layer and whose flag says opening. *)
Definition buildLayer (c : t dom) : M dom Layer :=
  call Build ;;
  s <- getStack ;;
  ret {| id := freshId (baseLayer c) s;
         parent := Some (baseLayer c);
         LayerStack.mode := mode c;
         state := Opening |}.

Definition emitOpenEvent (a : answers) : M dom bool :=
  call (Emit "up:layer:open") ;;
  ret (openEventPrevented a).

Definition emitOpenedEvent : M dom unit :=
  call (Emit "up:layer:opened").

Definition handleHistory : M dom unit :=
  call SaveHistory ;;
  call UpdateHistory.

Definition handleScroll : M dom unit :=
  call HandleScroll.

(** [@baseLayer.peel()] *)
Definition peelBaseLayer (c : t dom) : M dom unit :=
  call (Peel (baseLayer c)) ;;
  changeStack (peel (baseLayer c)).

(** [up.layer.stack.push(@layer)] *)
Definition pushLayer (layer : Layer) : M dom unit :=
  call (Push (id layer)) ;;
  changeStack (fun s => push s layer).

(** Modelled from the spec: [handleLayerChangeRequests] is a method of the
    superclass [up.Change.Addition], which is not part of the embedded
    sources.  When the response closes the layer (an accept or dismiss
    signal, an event it asks for, a location that closes the layer) the
    run fails as Aborted.  The closing itself is the work of the layer's
    accept and dismiss, which are not modelled: the stack is left as
    [execute] made it. *)
Definition handleLayerChangeRequests (a : answers) : M dom unit :=
  call HandleLayerChangeRequests ;;
  if layerChangeRequestsAbort a then throw (Error.Aborted "Layer was closed")
  else ret tt.

(** Modelled from the spec: [abortWhenLayerClosed] is a method of the
    superclass too.  When a listener of [up:layer:opened] closed the layer
    the run fails as Aborted; what the listener did to the stack is not
    modelled. *)
Definition abortWhenLayerClosed (a : answers) : M dom unit :=
  call AbortWhenLayerClosed ;;
  if layerClosedAfterOpened a then throw (Error.Aborted "Layer was closed")
  else ret tt.

(** [responseDoc.select(@target)] *)
Definition selectTarget (c : t dom) : M dom (option Node) :=
  call (Select (target c)) ;;
  d <- getResponseDoc ;;
  ret (ResponseDoc.select dom d (target c)).

(** [responseDoc.getTitle()] *)
Definition getTitle : M dom (option string) :=
  call GetTitle ;;
  d <- getResponseDoc ;;
  let (title, d) := ResponseDoc.getTitle dom d in
  setResponseDoc d ;;
  ret title.

(** The callback passed to [@layer.startOpenAnimation().then] runs in a
    later turn of the event loop and is no part of the call. *)
Definition execute (c : t dom) (a : answers) : M dom (RenderResult dom) :=
  content <-
    (if String.eqb (target c) ":none" then
       call (CreateElement "up-none") ;;
       ret (Some (Dom.createElement dom "up-none"))
     else
       selectTarget c) ;;
  match content with
  | None => throw Error.NotApplicable
  | Some content =>
      call (IsClosed (baseLayer c)) ;;
      if baseLayerIsClosed a then throw Error.NotApplicable
      else
        call Puts ;;
        _ <- getTitle ;;
        layer <- buildLayer c ;;
        prevented <- emitOpenEvent a ;;
        if prevented then
          throw (Error.Aborted "Open event was prevented")
        else
          peelBaseLayer c ;;
          pushLayer layer ;;
          call CreateElements ;;
          call SetupHandlers ;;
          handleHistory ;;
          call SetSource ;;
          call FinalizeElement ;;
          d <- getResponseDoc ;;
          let content := ResponseDoc.finalizeElement dom d content in
          call Hello ;;
          handleLayerChangeRequests a ;;
          handleScroll ;;
          call StartOpenAnimation ;;
          changeStack (clearOpening (id layer)) ;;
          let layer :=
            match state layer with
            | Opening => set_state layer Open
            | _ => layer
            end in
          emitOpenedEvent ;;
          abortWhenLayerClosed a ;;
          ret {| layer := layer; fragments := [content] |}
  end.

(** *** Names for the parts of a run *)

(** What [@content] is assigned in the world [w]. *)
Definition contentOf (c : t dom) (w : world dom) : option Node :=
  if String.eqb (target c) ":none" then
    Some (Dom.createElement dom "up-none")
  else
    ResponseDoc.select dom (responseDoc w) (target c).

(** The call that makes the content. *)
Definition contentCall (c : t dom) : effect :=
  if String.eqb (target c) ":none" then CreateElement "up-none"
  else Select (target c).

(** The layer that [@buildLayer()] returns in the world [w]. *)
Definition builtLayer (c : t dom) (w : world dom) : Layer :=
  {| id := freshId (baseLayer c) (stack w);
     parent := Some (baseLayer c);
     LayerStack.mode := mode c;
     state := Opening |}.

(** The calls of a run that is stopped by a listener of
    [up:layer:open], and the calls that follow when it is not
    stopped. *)
Definition callsUntilOpenEvent (c : t dom) : list effect :=
  [contentCall c; IsClosed (baseLayer c); Puts; GetTitle; Build;
   Emit "up:layer:open"].

Definition callsUntilChangeRequests (c : t dom) (w : world dom)
  : list effect :=
  [Peel (baseLayer c); Push (id (builtLayer c w)); CreateElements;
   SetupHandlers; SaveHistory; UpdateHistory; SetSource; FinalizeElement;
   Hello; HandleLayerChangeRequests].

Definition callsUntilEnd : list effect :=
  [HandleScroll; StartOpenAnimation; Emit "up:layer:opened";
   AbortWhenLayerClosed].

(** The calls that a run of [execute] from the world [w] adds to the
    trace. *)
Definition calls (c : t dom) (a : answers) (w : world dom) : list effect :=
  skipn (List.length (trace w)) (trace (snd (execute c a w))).

(** The world [w] with another stack, the response document after
    [getTitle], and more calls in the trace. *)
Definition after (w : world dom) (s : LayerStack.t) (calls : list effect)
  : world dom :=
  {| stack := s;
     responseDoc := snd (ResponseDoc.getTitle dom (responseDoc w));
     trace := trace w ++ calls |}.

(** The calls of a run that nothing stops. *)
Definition allCalls (c : t dom) (w : world dom) : list effect :=
  (callsUntilOpenEvent c ++ callsUntilChangeRequests c w) ++ callsUntilEnd.
End Execute.
End OpenLayer.

(** ** up.util.memoize *)

Module Memoize.
Section WithFunction.
Variables Args Value State : Type.

(** The function that is wrapped.  It may read and change the state of
    the page; it returns a value ([None] for [undefined]) or it throws. *)
Variable func : Args -> State -> (Error.t + option Value) * State.

(** The two variables of the closure that [memoize] returns. *)
Record closure : Type :=
  { cachedValue : option Value;
    cached : bool }.

(** [memoize(func)]: the closure before its first call. *)
Definition memoize : closure :=
  {| cachedValue := None; cached := false |}.

(** A call of the function that [memoize] returned. *)
Definition call (m : closure) (args : Args) (s : State)
  : (Error.t + option Value) * (closure * State) :=
  if cached m then
    (inr (cachedValue m), (m, s))
  else
    let m := {| cachedValue := cachedValue m; cached := true |} in
    match func args s with
    | (inl e, s') => (inl e, (m, s'))
    | (inr v, s') => (inr v, ({| cachedValue := v; cached := true |}, s'))
    end.
End WithFunction.
End Memoize.

(** ** up.util: lists *)

Module UtilList.
Local Open Scope nat_scope.
Local Open Scope list_scope.

(** [for item, index in array], with the state that the body changes. *)
Fixpoint eachFrom {A St} (index : nat) (array : list A)
         (block : A -> nat -> St -> St) (s : St) : St :=
  match array with
  | [] => s
  | item :: rest => eachFrom (S index) rest block (block item index s)
  end.

(** [each], for a block that is called for what it does. *)
Definition each {A St} (array : list A) (block : A -> nat -> St -> St) (s : St)
  : St :=
  eachFrom 0 array block s.

Fixpoint mapFrom {A B} (index : nat) (array : list A) (block : A -> nat -> B)
  : list B :=
  match array with
  | [] => []
  | item :: rest => block item index :: mapFrom (S index) rest block
  end.

(** [map], for a block that is called for what it returns. *)
Definition map {A B} (array : list A) (block : A -> nat -> B) : list B :=
  if Nat.eqb (List.length array) 0 then [] else mapFrom 0 array block.

(** The range [first..last] of CoffeeScript with ends that are not
    literals: it counts up when [first <= last] and down otherwise, both
    ends included. *)
Definition range (first last : Z) : list Z :=
  if (first <=? last)%Z then
    List.map (fun i => (first + Z.of_nat i)%Z)
             (seq 0 (Z.to_nat (last - first + 1)))
  else
    List.map (fun i => (first - Z.of_nat i)%Z)
             (seq 0 (Z.to_nat (first - last + 1))).

(** [times = (count, block) -> block(iteration) for iteration in
    [0..(count - 1)]] *)
Definition times {B} (count : Z) (block : Z -> B) : list B :=
  List.map block (range 0 (count - 1)).

(** [findInList]: [None] for [undefined]. *)
Fixpoint findInList {A} (items : list A) (tester : A -> bool) : option A :=
  match items with
  | [] => None
  | element :: rest =>
      if tester element then Some element else findInList rest tester
  end.

Fixpoint findResultFrom {A R} (index : nat) (array : list A)
         (tester : A -> nat -> option R) : option R :=
  match array with
  | [] => None
  | element :: rest =>
      match tester element index with
      | Some result => Some result
      | None => findResultFrom (S index) rest tester
      end
  end.

(** [findResult]: the tester answers [None] for a falsy result. *)
Definition findResult {A R} (array : list A) (tester : A -> nat -> option R)
  : option R :=
  findResultFrom 0 array tester.

(** [some = (list, tester) -> !!findResult(list, tester)] *)
Definition some {A R} (items : list A) (tester : A -> nat -> option R) : bool :=
  match findResult items tester with
  | Some _ => true
  | None => false
  end.

Fixpoint everyFrom {A} (index : nat) (items : list A)
         (tester : A -> nat -> bool) : bool :=
  match items with
  | [] => true
  | element :: rest =>
      if tester element index then everyFrom (S index) rest tester else false
  end.

Definition every {A} (items : list A) (tester : A -> nat -> bool) : bool :=
  everyFrom 0 items tester.

(** The function that [filterList] passes to [each]: it pushes the element
    to the matches when the tester is truthy. *)
Definition collect {A St} (tester : A -> nat -> St -> bool * St)
           (element : A) (index : nat) (state : list A * St) : list A * St :=
  let (matches, s) := state in
  let (hit, s) := tester element index s in
  (if hit then matches ++ [element] else matches, s).

(** [filterList] for a tester that keeps a state of its own (as the one of
    [uniqBy] does): the matches, and the state after the last call. *)
Definition filterListWith {A St} (items : list A)
           (tester : A -> nat -> St -> bool * St) (s : St) : list A * St :=
  each items (collect tester) ([], s).

Definition filterList {A} (items : list A) (tester : A -> nat -> bool)
  : list A :=
  fst (filterListWith items (fun element index s => (tester element index, s))
                      tt).

Definition reject {A} (items : list A) (tester : A -> nat -> bool) : list A :=
  filterList items (fun element index => negb (tester element index)).



(** [flatten]: an item that is a list ([inl]) is spread, any other item
    ([inr]) is pushed. *)
Definition spread {A} (flattened : list A) (object : list A + A) : list A :=
  match object with
  | inl items => flattened ++ items
  | inr item => flattened ++ [item]
  end.

Definition flatten {A} (array : list (list A + A)) : list A :=
  fold_left spread array [].

Definition flatMap {A B} (array : list A) (block : A -> nat -> list B + B)
  : list B :=
  flatten (map array block).

Section WithEquality.
Variable A : Type.

(** [===] on the items. *)
Variable eq_dec : forall x y : A, {x = y} + {x <> y}.

Fixpoint indexOfFrom (index : nat) (array : list A) (element : A) : Z :=
  match array with
  | [] => (-1)%Z
  | item :: rest =>
      if eq_dec item element then Z.of_nat index
      else indexOfFrom (S index) rest element
  end.

(** [array.indexOf(element)] *)
Definition indexOf (array : list A) (element : A) : Z :=
  indexOfFrom 0 array element.

(** [contains = (value, subValue) -> value.indexOf(subValue) >= 0] *)
Definition contains (value : list A) (subValue : A) : bool :=
  (0 <=? indexOf value subValue)%Z.

(** [array.splice(index, 1)] *)
Definition splice1 (array : list A) (index : nat) : list A :=
  firstn index array ++ skipn (S index) array.

(** [remove]: what it returns and the array after the call. *)
Definition remove (array : list A) (element : A) : option A * list A :=
  let index := indexOf array element in
  if (0 <=? index)%Z then
    (Some element, splice1 array (Z.to_nat index))
  else
    (None, array).

Definition intersect (array1 array2 : list A) : list A :=
  filterList array1 (fun element _ => contains array2 element).

(** A [Set]: its elements in the order they were added. *)
Definition setHas (set : list A) (elem : A) : bool :=
  if in_dec eq_dec elem set then true else false.

Definition setAdd (set : list A) (elem : A) : list A :=
  if setHas set elem then set else set ++ [elem].

Definition arrayToSet (array : list A) : list A :=
  fold_left setAdd array [].

Definition setToArray (set : list A) : list A :=
  fold_left (fun array elem => array ++ [elem]) set [].

Definition uniq (array : list A) : list A :=
  if List.length array <? 2 then array
  else setToArray (arrayToSet array).

(** The tester of [uniqBy]: it is true of an element whose mapped value
    the set does not have, and adds that value to the set. *)
Definition unseen {B} (mapper : B -> nat -> A) (elem : B) (index : nat)
           (set : list A) : bool * list A :=
  let mapped := mapper elem index in
  if setHas set mapped then (false, set)
  else (true, setAdd set mapped).

Definition uniqBy {B} (array : list B) (mapper : B -> nat -> A) : list B :=
  if List.length array <? 2 then array
  else fst (filterListWith array (unseen mapper) []).
End WithEquality.
End UtilList.

(** ** up.util: strings *)

Module UtilString.
Local Open Scope nat_scope.
Local Open Scope char_scope.
Local Open Scope string_scope.

(** Every character of the string passes the test. *)
Fixpoint allChars (test : ascii -> bool) (s : string) : bool :=
  match s with
  | EmptyString => true
  | String char rest => test char && allChars test rest
  end.

(** [endsWith] *)
Definition endsWith (str search : string) : bool :=
  if Nat.ltb (String.length str) (String.length search) then false
  else
    String.eqb (substring (String.length str - String.length search)
                          (String.length search) str)
               search.

(** The double quote and the single quote. *)
Definition doubleQuote : ascii := "034".
Definition singleQuote : ascii := "039".

(** [ESCAPE_HTML_ENTITY_MAP[char]]: [None] for a character that the
    pattern does not match; the pattern matches the ampersand, the two
    angle brackets and the two quotes. *)
Definition ESCAPE_HTML_ENTITY_MAP (char : ascii) : option string :=
  if Ascii.eqb char "&" then Some "&amp;"
  else if Ascii.eqb char "<" then Some "&lt;"
  else if Ascii.eqb char ">" then Some "&gt;"
  else if Ascii.eqb char doubleQuote then Some "&quot;"
  else if Ascii.eqb char singleQuote then Some "&#x27;"
  else None.

(** [escapeHTML]: every character that the pattern matches is replaced
    by its entity. *)
Fixpoint escapeHTML (str : string) : string :=
  match str with
  | EmptyString => EmptyString
  | String char rest =>
      match ESCAPE_HTML_ENTITY_MAP char with
      | Some entity => entity ++ escapeHTML rest
      | None => String char (escapeHTML rest)
      end
  end.

(** The characters [A-Z] and [a-z] of ASCII. *)
Definition isUpperCase (char : ascii) : bool :=
  Nat.leb 65 (nat_of_ascii char) && Nat.leb (nat_of_ascii char) 90.

(** [char.toLowerCase()] for a character of ASCII: a capital letter
    becomes the small one, every other character stays. *)
Definition toLowerCaseChar (char : ascii) : ascii :=
  if isUpperCase char then ascii_of_nat (nat_of_ascii char + 32) else char.

(** [camelToKebabCase = (str) -> str.replace /[A-Z]/g, (char) -> '-' +
    char.toLowerCase()] *)
Fixpoint camelToKebabCase (str : string) : string :=
  match str with
  | EmptyString => EmptyString
  | String char rest =>
      if isUpperCase char then
        String "-" (String (toLowerCaseChar char) (camelToKebabCase rest))
      else
        String char (camelToKebabCase rest)
  end.
End UtilString.

(** ** A small DOM to run the classes on *)

Module ToyDom.
Local Open Scope string_scope.
Local Open Scope list_scope.

Set Warnings "-register-all".

(** An element: its tag (or the selector it was made from), the markup
    assigned to it, and the nodes appended to it. *)
Inductive node : Type :=
| El (tagName : string) (innerHTML : string) (children : list node).

Definition tagName (n : node) : string :=
  match n with El tag _ _ => tag end.
Definition innerHTML (n : node) : string :=
  match n with El _ html _ => html end.
Definition children (n : node) : list node :=
  match n with El _ _ cs => cs end.

Fixpoint descendants (n : node) : list node :=
  match n with
  | El _ _ cs => flat_map (fun c => c :: descendants c) cs
  end.

Definition hasTag (selector : string) (n : node) : bool :=
  String.eqb (tagName n) selector.

(** A stripper that drops markup that opens with the tag, and a wrapper
    that leaves markup alone. *)
Definition wrapper (tag : string) : Dom.HTMLWrapper node :=
  {| Dom.wrap := fun html => html;
     Dom.strip := fun html =>
       if String.prefix ("<" ++ tag) html then "" else html;
     Dom.unwrap := fun n => n |}.

Definition api : Dom.api :=
  {| Dom.Node := node;
     Dom.newHTMLWrapper := wrapper;
     Dom.createDocumentFromHTML := fun html => Some (El "html" html []);
     Dom.createFromHTML := fun html =>
       if String.eqb html "" then None else Some (El "fragment" html []);
     Dom.createFromSelector := fun selector => El selector "" [];
     Dom.createElement := fun tag => El tag "" [];
     Dom.setInnerHTML := fun n html => El (tagName n) html [];
     Dom.appendChild := fun n c =>
       El (tagName n) (innerHTML n) (children n ++ [c]);
     Dom.querySelector := fun n selector =>
       find (hasTag selector) (descendants n);
     Dom.textContent := innerHTML;
     Dom.subtree := fun n selector =>
       filter (hasTag selector) (n :: descendants n) |}.

(** The options of a response document over this DOM. *)
Definition options (document fragment content : ResponseDoc.payload api)
           (target : option string) : ResponseDoc.options api :=
  ResponseDoc.Build_options api document fragment content target.

(** A response document around a root, before the first [getTitle]. *)
Definition doc (r : node) : ResponseDoc.t api :=
  ResponseDoc.Build_t api (wrapper "noscript") (wrapper "script")
                      r None false [].

(** A root layer and a modal overlay opened from it. *)
Definition rootLayer : LayerStack.Layer :=
  {| LayerStack.id := 0; LayerStack.parent := None;
     LayerStack.mode := "root"; LayerStack.state := LayerStack.Open |}.

Definition overlay : LayerStack.Layer :=
  {| LayerStack.id := 1; LayerStack.parent := Some 0%nat;
     LayerStack.mode := "modal"; LayerStack.state := LayerStack.Open |}.

(** The world with a stack and a response document, nothing called yet. *)
Definition world (s : LayerStack.t) (r : node) : OpenLayer.world api :=
  OpenLayer.Build_world api s (doc r) [].

(** The change that opens the target in a popup over the root layer. *)
Definition change (target : string) : OpenLayer.t api :=
  OpenLayer.Build_t api target "popup" None 0%nat None.

(** A page with one card. *)
Definition page : node := El "html" "" [El ".card" "Hello" []].
End ToyDom.

(** * Properties *)

(** ** Numbers *)

Module NumFacts.
Local Open Scope Q_scope.
Import Num.

Lemma ltb_lt (a b : Q) : ltb a b = true <-> a < b.
Proof.
  unfold ltb. rewrite negb_true_iff. split.
  - intros H. apply Qnot_le_lt. intros L.
    apply Qle_bool_iff in L. congruence.
  - intros H. destruct (Qle_bool b a) eqn:E; [|reflexivity].
    apply Qle_bool_iff in E. lra.
Qed.

Lemma ltb_ge (a b : Q) : ltb a b = false <-> b <= a.
Proof.
  unfold ltb. rewrite negb_false_iff. apply Qle_bool_iff.
Qed.

Lemma gtb_gt (a b : Q) : gtb a b = true <-> b < a.
Proof. apply ltb_lt. Qed.

Lemma gtb_le (a b : Q) : gtb a b = false <-> a <= b.
Proof. apply ltb_ge. Qed.

Lemma neqb_eq (a b : Q) : neqb a b = false <-> a == b.
Proof.
  unfold neqb. rewrite negb_false_iff. apply Qeq_bool_iff.
Qed.

Lemma neqb_neq (a b : Q) : neqb a b = true <-> ~ a == b.
Proof.
  unfold neqb. rewrite negb_true_iff. split.
  - apply Qeq_bool_neq.
  - intros H. destruct (Qeq_bool a b) eqn:E; [|reflexivity].
    apply Qeq_bool_iff in E. contradiction.
Qed.
End NumFacts.

(** Turns every comparison of the goal and of the context into the order
    of [Q] it decides, one case for each answer. *)
Ltac num_case b :=
  let E := fresh "E" in
  destruct b eqn:E;
  [ first [ apply NumFacts.ltb_lt in E | apply NumFacts.gtb_gt in E
          | apply NumFacts.neqb_neq in E ]
  | first [ apply NumFacts.ltb_ge in E | apply NumFacts.gtb_le in E
          | apply NumFacts.neqb_eq in E ] ].

Ltac num_cases :=
  repeat match goal with
         | |- context [Num.gtb ?a ?b] => num_case (Num.gtb a b)
         | |- context [Num.ltb ?a ?b] => num_case (Num.ltb a b)
         | |- context [Num.neqb ?a ?b] => num_case (Num.neqb a b)
         end.

(** ** up.RevealMotion *)

Module RevealMotionFacts.
Local Open Scope Q_scope.
Import Util RevealMotion.

(** The two scenarios of the specification: a viewport of height 800 at
    offset 0; an element at 1000 of height 200 is aligned at the bottom, one
    of height 2000 at the top. *)
Example scenario_bottom :
  start (motion (box 1000 200) (rootViewport 800 0) Falsy false [])
  = Finished 400 [400].
Proof. reflexivity. Qed.

Example scenario_top :
  start (motion (box 1000 2000) (rootViewport 800 0) Falsy false [])
  = Finished 1000 [1000].
Proof. reflexivity. Qed.

(** The snap compares the top of the element with half the height of the
    viewport, both as they are: in a viewport that begins at 100 and is 100
    high, an element at 140 is not below 50, and the offset 10 stays. *)
Example snap_in_a_lower_viewport :
  start (motion (box 140 10) (innerViewport 100 100 10) (Number 50) false [])
  = Finished 10 [].
Proof. reflexivity. Qed.

(** *** The two loops of [_substractObstructions] *)

Lemma subtractTop_bottom v o :
  Rect.bottom (subtractTop v o) == Rect.bottom v.
Proof.
  unfold subtractTop, Rect.bottom. num_cases; simpl; lra.
Qed.

Lemma subtractTop_grows v o : Rect.top v <= Rect.top (subtractTop v o).
Proof.
  unfold subtractTop. num_cases; simpl; lra.
Qed.

Lemma subtractTop_mono v v' o :
  Rect.top v <= Rect.top v' ->
  Rect.top (subtractTop v o) <= Rect.top (subtractTop v' o).
Proof.
  unfold subtractTop. intros H. num_cases; simpl; lra.
Qed.

Lemma topLoop_bottom l v :
  Rect.bottom (fold_left subtractTop l v) == Rect.bottom v.
Proof.
  revert v. induction l as [|o l IH]; intros v; simpl.
  - reflexivity.
  - rewrite IH. apply subtractTop_bottom.
Qed.

Lemma topLoop_mono l v v' :
  Rect.top v <= Rect.top v' ->
  Rect.top (fold_left subtractTop l v)
  <= Rect.top (fold_left subtractTop l v').
Proof.
  revert v v'. induction l as [|o l IH]; intros v v' H; simpl.
  - exact H.
  - apply IH. now apply subtractTop_mono.
Qed.

Lemma subtractBottom_top v o : Rect.top (subtractBottom v o) = Rect.top v.
Proof.
  unfold subtractBottom. destruct (Num.gtb _ _); reflexivity.
Qed.

Lemma subtractBottom_bottom v v' o :
  Rect.bottom v == Rect.bottom v' ->
  Rect.bottom (subtractBottom v o) == Rect.bottom (subtractBottom v' o).
Proof.
  unfold subtractBottom, Rect.bottom. intros H.
  num_cases; simpl in *; lra.
Qed.

Lemma bottomLoop_top l v :
  Rect.top (fold_left subtractBottom l v) = Rect.top v.
Proof.
  revert v. induction l as [|o l IH]; intros v; simpl.
  - reflexivity.
  - rewrite IH. apply subtractBottom_top.
Qed.

Lemma bottomLoop_bottom l v v' :
  Rect.bottom v == Rect.bottom v' ->
  Rect.bottom (fold_left subtractBottom l v)
  == Rect.bottom (fold_left subtractBottom l v').
Proof.
  revert v v'. induction l as [|o l IH]; intros v v' H; simpl.
  - exact H.
  - apply IH. now apply subtractBottom_bottom.
Qed.

(** *** The reduced viewport when a top obstruction is added *)

Lemma added_top_obstruction_rect i o m :
  isVisible o = true ->
  Rect.top (reducedViewportRect m)
  <= Rect.top (reducedViewportRect (addTopObstruction i o m))
  /\ Rect.bottom (reducedViewportRect (addTopObstruction i o m))
     == Rect.bottom (reducedViewportRect m).
Proof.
  intros Hv.
  unfold reducedViewportRect, _substractObstructions, _selectObstructions.
  cbn [_topObstructions _bottomObstructions addTopObstruction].
  change (_getViewportRect (addTopObstruction i o m))
    with (_getViewportRect m).
  set (v := _getViewportRect m).
  set (l := _topObstructions m).
  assert (Hl : filter isVisible l
               = filter isVisible (firstn i l)
                        ++ filter isVisible (skipn i l))
    by now rewrite <- filter_app, firstn_skipn.
  rewrite Hl, filter_app. cbn [filter]. rewrite Hv.
  rewrite !fold_left_app. cbn [fold_left].
  set (v1 := fold_left subtractTop (filter isVisible (firstn i l)) v).
  set (l2 := filter isVisible (skipn i l)).
  split.
  - rewrite !bottomLoop_top.
    apply topLoop_mono, subtractTop_grows.
  - apply bottomLoop_bottom.
    rewrite !topLoop_bottom. apply subtractTop_bottom.
Qed.

Lemma added_top_obstruction_element i o m :
  paddedElementRect (addTopObstruction i o m) = paddedElementRect m.
Proof. reflexivity. Qed.

(** The chain of [decideScrollTop] never answers more for a viewport whose
    top is lower and whose bottom is the same. *)
Lemma decideScrollTop_antitone alignTop e v v' s :
  Rect.top v <= Rect.top v' ->
  Rect.bottom v' == Rect.bottom v ->
  decideScrollTop alignTop e v' s <= decideScrollTop alignTop e v s.
Proof.
  unfold decideScrollTop, Rect.bottom. intros Ht Hb.
  destruct alignTop; cbn [orb].
  - lra.
  - num_cases; cbn [orb]; lra.
Qed.

(** *** What [start] answers *)

Lemma start_fails m :
  Rect.height (reducedViewportRect m) < 0 ->
  start m = Thrown (Error.Failed "Viewport has no visible area").
Proof.
  intros H. unfold start.
  apply NumFacts.ltb_lt in H. now rewrite H.
Qed.

Lemma start_finishes m :
  0 <= Rect.height (reducedViewportRect m) ->
  let n := snapScrollTop (_snap m) (paddedElementRect m)
                         (reducedViewportRect m) (rawScrollTop m) in
  start m
  = Finished n (if Num.neqb n (scrollTop (_viewport m)) then [n] else []).
Proof.
  intros H. unfold start.
  apply NumFacts.ltb_ge in H. rewrite H.
  fold (rawScrollTop m). cbv zeta.
  now destruct (Num.neqb _ _).
Qed.

Lemma start_finished_offset m n calls :
  start m = Finished n calls ->
  n = snapScrollTop (_snap m) (paddedElementRect m)
                    (reducedViewportRect m) (rawScrollTop m).
Proof.
  unfold start. fold (rawScrollTop m).
  destruct (Num.ltb _ _); [discriminate|].
  destruct (Num.neqb _ _); intros H; now inversion H.
Qed.

Lemma snapScrollTop_not_a_number snap e v n :
  isNumber snap = false -> snapScrollTop snap e v n = n.
Proof.
  intros H. unfold snapScrollTop, snaps. now rewrite H.
Qed.

(** An element inside the reduced viewport leaves the offset alone
    before the snap. *)
Lemma decideScrollTop_inside e v s :
  Rect.height e <= Rect.height v ->
  Rect.top v <= Rect.top e ->
  Rect.bottom e <= Rect.bottom v ->
  decideScrollTop false e v s = s.
Proof.
  unfold decideScrollTop. intros Hfit Ht Hb.
  apply NumFacts.gtb_le in Hfit. apply NumFacts.ltb_ge in Ht.
  apply NumFacts.gtb_le in Hb.
  now rewrite Hfit, Ht, Hb.
Qed.

(** *** C3 *)

(** C3.  [start] throws "Viewport has no visible area" when the height of
    the viewport rectangle, after all visible top and bottom obstructions
    were subtracted, is below zero: no offset is computed and [scrollTo]
    is not called.  When that height is zero or more it does not throw:
    it ends with an offset decided.  The height is compared as it is, a
    negative height is not replaced by zero. *)
Theorem C3_start_fails_on_negative_height (m : t) :
  (Rect.height (reducedViewportRect m) < 0 ->
   start m = Thrown (Error.Failed "Viewport has no visible area"))
  /\ (0 <= Rect.height (reducedViewportRect m) ->
      exists n calls, start m = Finished n calls).
Proof.
  split.
  - apply start_fails.
  - intros H. rewrite (start_finishes m H). eauto.
Qed.

(** A root viewport of height 100 below a fixed bar that ends at 150 has
    the height -50 left; below a bar that ends at 100 it has 0 left. *)
Lemma C3_start_fails_on_negative_height_witness :
  let covered :=
    motion (box 10 10) (rootViewport 100 0) Falsy false [box 0 150] in
  let filled :=
    motion (box 10 10) (rootViewport 100 0) Falsy false [box 0 100] in
  (Rect.height (reducedViewportRect covered) == -50
   /\ start covered = Thrown (Error.Failed "Viewport has no visible area"))
  /\ (Rect.height (reducedViewportRect filled) == 0
      /\ exists n calls, start filled = Finished n calls).
Proof.
  intros covered filled. split; split.
  - reflexivity.
  - apply (proj1 (C3_start_fails_on_negative_height covered)).
    vm_compute. reflexivity.
  - reflexivity.
  - apply (proj2 (C3_start_fails_on_negative_height filled)).
    vm_compute. discriminate.
Defined.

(** *** C4 *)

(** C4 as stated fails.  A root viewport of height 800 under a fixed bar
    that ends at 100, scrolled to 10, and an element at 360 of height 10:
    the element is visible, so the computed offset is 10, below the
    threshold 50, and its top lies in the upper half of the viewport, be it
    the whole viewport (0 to 400) or what the bar leaves of it (100 to
    450).  [start] compares 360 with half the height that is left, 350,
    and does not snap: the offset stays 10. *)
Lemma C4_upper_half_is_not_snapped :
  ~ (forall (m : t) (s : Q),
        _snap m = Number s ->
        rawScrollTop m < s ->
        inUpperHalf (Rect.top (paddedElementRect m)) (_getViewportRect m) ->
        inUpperHalf (Rect.top (paddedElementRect m))
                    (reducedViewportRect m) ->
        exists calls, start m = Finished 0 calls).
Proof.
  intros H.
  destruct (H (motion (box 360 10) (rootViewport 800 10) (Number 50)
                      false [box 0 100])
              50 eq_refl
              ltac:(vm_compute; reflexivity)
              ltac:(split; vm_compute; [discriminate | reflexivity])
              ltac:(split; vm_compute; [discriminate | reflexivity]))
    as [calls St].
  vm_compute in St. discriminate St.
Qed.

Lemma start_snap_rule m s :
  _snap m = Number s ->
  0 <= Rect.height (reducedViewportRect m) ->
  start m
  = (if Num.ltb (rawScrollTop m) s
        && Num.ltb (Rect.top (paddedElementRect m))
                   (0.5 * Rect.height (reducedViewportRect m))
     then Finished 0 (scrollCalls (scrollTop (_viewport m)) 0)
     else Finished (rawScrollTop m)
                   (scrollCalls (scrollTop (_viewport m)) (rawScrollTop m))).
Proof.
  intros Hs Hh. rewrite (start_finishes m Hh).
  unfold snapScrollTop, snaps, scrollCalls. rewrite Hs.
  cbn [isNumber below andb].
  now destruct (Num.ltb (rawScrollTop m) s && _).
Qed.

(** C4, amended.  With a numeric snap threshold [s], when [start] does not
    fail: if the offset computed by the alignment rules is below [s] and
    the top of the (padded) element rectangle is below half the height of
    the (reduced) viewport rectangle, the offset is set to 0, and
    [scrollTo] is called with 0 unless the viewport is at 0 already.  If
    the computed offset is [s] or more, or the top of the element is half
    that height or more, the offset is left as computed, and [scrollTo] is
    called with it unless the viewport is there already.  The top of the
    element is compared with half the height as a number: the top of the
    viewport rectangle is not added. *)
Theorem C4_snap_rule (m : t) (s : Q) :
  _snap m = Number s ->
  0 <= Rect.height (reducedViewportRect m) ->
  (rawScrollTop m < s ->
   Rect.top (paddedElementRect m)
   < 0.5 * Rect.height (reducedViewportRect m) ->
   start m = Finished 0 (scrollCalls (scrollTop (_viewport m)) 0))
  /\ (s <= rawScrollTop m
      \/ 0.5 * Rect.height (reducedViewportRect m)
         <= Rect.top (paddedElementRect m) ->
      start m
      = Finished (rawScrollTop m)
                 (scrollCalls (scrollTop (_viewport m)) (rawScrollTop m))).
Proof.
  intros Hs Hh. rewrite (start_snap_rule m s Hs Hh).
  split.
  - intros Hlt Hup.
    apply NumFacts.ltb_lt in Hlt, Hup. now rewrite Hlt, Hup.
  - intros [Hge | Hlow].
    + apply NumFacts.ltb_ge in Hge. now rewrite Hge.
    + apply NumFacts.ltb_ge in Hlow. now rewrite Hlow, andb_false_r.
Qed.

(** The threshold 50: a computed offset of 10 with the top of the element
    below half the height becomes 0, and [scrollTo] is called with 0; a
    computed offset of 1000 stays, and so does the offset 10 for an element
    at 360 under a bar that ends at 100: no call. *)
Lemma C4_snap_rule_witness :
  let near := motion (box 100 10) (rootViewport 800 10) (Number 50) false [] in
  let far := motion (box 100 10) (rootViewport 800 1000) (Number 50) false [] in
  let lower :=
    motion (box 360 10) (rootViewport 800 10) (Number 50) false [box 0 100] in
  (rawScrollTop near == 10 /\ start near = Finished 0 [0])
  /\ (rawScrollTop far == 1000 /\ start far = Finished 1000 [])
  /\ (rawScrollTop lower == 10 /\ start lower = Finished 10 []).
Proof.
  intros near far lower.
  split; [|split]; (split; [reflexivity|]).
  - apply (proj1 (C4_snap_rule near 50 eq_refl
                               ltac:(vm_compute; discriminate)));
      vm_compute; reflexivity.
  - apply (proj2 (C4_snap_rule far 50 eq_refl
                               ltac:(vm_compute; discriminate))).
    left. vm_compute. discriminate.
  - apply (proj2 (C4_snap_rule lower 50 eq_refl
                               ltac:(vm_compute; discriminate))).
    right. vm_compute. discriminate.
Defined.

(** *** C5 *)

(** C5 as stated fails.  An element at 20 of height 50 in a root viewport
    of height 800 that is scrolled to 100 is visible: the offset stays 100.
    With a fixed bar that ends at 60 the element sits too high and the
    offset becomes 60: the added top obstruction has decreased it. *)
Lemma C5_added_top_obstruction_decreases :
  ~ (forall (i : nat) (o : Element) (m : t),
        isVisible o = true ->
        forall n calls n' calls',
          start m = Finished n calls ->
          start (addTopObstruction i o m) = Finished n' calls' ->
          n <= n').
Proof.
  intros H.
  specialize (H 0%nat (box 0 60)
                (motion (box 20 50) (rootViewport 800 100) Falsy false [])
                eq_refl 100 [] 60 [60] eq_refl eq_refl).
  vm_compute in H. now apply H.
Qed.

(** C5, amended.  On whole pixels, adding one visible top obstruction,
    all other inputs equal, never increases the offset that the alignment
    rules compute (the offset before the snap); and when no numeric snap
    threshold is set and both calls of [start] end without failure, it
    never increases the offset [start] decides.  (On numbers whose sums
    the code rounds, the offset with the obstruction can come out one
    rounding step above the offset without it.) *)
Theorem C5_top_obstruction_never_increases (i : nat) (o : Element) (m : t) :
  wholePixels m = true ->
  wholeElement o = true ->
  isVisible o = true ->
  rawScrollTop (addTopObstruction i o m) <= rawScrollTop m
  /\ (isNumber (_snap m) = false ->
      forall n calls n' calls',
        start m = Finished n calls ->
        start (addTopObstruction i o m) = Finished n' calls' ->
        n' <= n).
Proof.
  intros _ _ Hv.
  assert (Hraw : rawScrollTop (addTopObstruction i o m) <= rawScrollTop m).
  { unfold rawScrollTop. rewrite added_top_obstruction_element.
    destruct (added_top_obstruction_rect i o m Hv) as [Ht Hb].
    now apply decideScrollTop_antitone. }
  split; [exact Hraw|].
  intros Hs n calls n' calls' St St'.
  apply start_finished_offset in St, St'.
  rewrite snapScrollTop_not_a_number in St by exact Hs.
  rewrite snapScrollTop_not_a_number in St' by exact Hs.
  now subst.
Qed.

Lemma C5_top_obstruction_never_increases_witness :
  let m := motion (box 20 50) (rootViewport 800 100) Falsy false [] in
  let m' := addTopObstruction 0 (box 0 60) m in
  rawScrollTop m' <= rawScrollTop m
  /\ start m = Finished 100 []
  /\ start m' = Finished 60 [60]
  /\ 60 <= 100.
Proof.
  intros m m'.
  pose proof (C5_top_obstruction_never_increases
                0 (box 0 60) m eq_refl eq_refl eq_refl) as [Hraw Hfin].
  split; [exact Hraw|].
  split; [reflexivity|]. split; [reflexivity|].
  exact (Hfin eq_refl 100 [] 60 [60] eq_refl eq_refl).
Defined.

(** *** C6 *)

(** C6 as stated fails.  An element at 100 of height 10 lies inside a root
    viewport of height 800.  Scrolled to 10 with a snap threshold of 50,
    [start] decides 0 and calls [scrollTo]. *)
Lemma C6_visible_element_snaps :
  ~ (forall m : t,
        Rect.top (reducedViewportRect m) <= Rect.top (paddedElementRect m) ->
        Rect.bottom (paddedElementRect m)
        <= Rect.bottom (reducedViewportRect m) ->
        Rect.height (paddedElementRect m)
        <= Rect.height (reducedViewportRect m) ->
        _top m = false ->
        exists n, n == scrollTop (_viewport m) /\ start m = Finished n []).
Proof.
  intros H.
  destruct (H (motion (box 100 10) (rootViewport 800 10) (Number 50)
                      false [])
              ltac:(vm_compute; discriminate)
              ltac:(vm_compute; discriminate)
              ltac:(vm_compute; discriminate)
              eq_refl)
    as [n [_ St]].
  vm_compute in St. discriminate St.
Qed.

(** C6, amended.  For an element whose padded rectangle lies inside the
    reduced viewport (top not above the top of the viewport, bottom not
    below its bottom, not taller than the viewport), without align-top and
    with a viewport of height zero or more (below zero [start] throws):
    when the snap does not apply to the current offset, or the current
    offset is 0, [start] decides the current offset and does not call
    [scrollTo]; when the snap applies to a current offset other than 0,
    [start] decides 0 and calls [scrollTo] once. *)
Theorem C6_reveal_of_visible_element (m : t) :
  let e := paddedElementRect m in
  let v := reducedViewportRect m in
  let s := scrollTop (_viewport m) in
  0 <= Rect.height v ->
  Rect.top v <= Rect.top e ->
  Rect.bottom e <= Rect.bottom v ->
  Rect.height e <= Rect.height v ->
  _top m = false ->
  (snaps (_snap m) e v s = false \/ s == 0 ->
   exists n, n == s /\ start m = Finished n [])
  /\ (snaps (_snap m) e v s = true -> ~ s == 0 ->
      start m = Finished 0 [0]).
Proof.
  intros e v s Hv Ht Hb Hfit Htop.
  pose proof (start_finishes m Hv) as St. cbv zeta in St.
  unfold rawScrollTop in St. rewrite Htop in St.
  fold e v s in St.
  rewrite (decideScrollTop_inside e v s Hfit Ht Hb) in St.
  unfold snapScrollTop in St.
  split.
  - intros [Hs | Hz].
    + rewrite Hs in St. exists s. split; [reflexivity|].
      rewrite St.
      now rewrite (proj2 (NumFacts.neqb_eq s s) (Qeq_refl s)).
    + destruct (snaps _ e v s).
      * exists 0. split; [now symmetry|]. rewrite St.
        assert (E : Num.neqb 0 s = false)
          by (apply NumFacts.neqb_eq; now symmetry).
        now rewrite E.
      * exists s. split; [reflexivity|]. rewrite St.
        now rewrite (proj2 (NumFacts.neqb_eq s s) (Qeq_refl s)).
  - intros Hs Hz. rewrite Hs in St. rewrite St.
    assert (E : Num.neqb 0 s = true).
    { apply NumFacts.neqb_neq. intros C. apply Hz. now symmetry. }
    now rewrite E.
Qed.

(** A visible element without a snap, the same element with a snap that
    applies, and an element whose padding of -10 leaves a rectangle of
    height -10. *)
Lemma C6_reveal_of_visible_element_witness :
  let still := motion (box 100 10) (rootViewport 800 10) Falsy false [] in
  let snapped :=
    motion (box 100 10) (rootViewport 800 10) (Number 50) false [] in
  let shrunk :=
    {| _element := box 100 10; _viewport := rootViewport 800 10;
       _snap := Falsy; _padding := -10; _top := false; _max := Falsy;
       _topObstructions := []; _bottomObstructions := [] |} in
  (exists n, n == 10 /\ start still = Finished n [])
  /\ start snapped = Finished 0 [0]
  /\ (Rect.height (paddedElementRect shrunk) == -10
      /\ exists n, n == 10 /\ start shrunk = Finished n []).
Proof.
  intros still snapped shrunk. split; [|split; [|split]].
  - apply (proj1 (C6_reveal_of_visible_element still
                    ltac:(vm_compute; discriminate)
                    ltac:(vm_compute; discriminate)
                    ltac:(vm_compute; discriminate)
                    ltac:(vm_compute; discriminate)
                    eq_refl)).
    left. reflexivity.
  - apply (proj2 (C6_reveal_of_visible_element snapped
                    ltac:(vm_compute; discriminate)
                    ltac:(vm_compute; discriminate)
                    ltac:(vm_compute; discriminate)
                    ltac:(vm_compute; discriminate)
                    eq_refl)).
    + reflexivity.
    + vm_compute. discriminate.
  - reflexivity.
  - apply (proj1 (C6_reveal_of_visible_element shrunk
                    ltac:(vm_compute; discriminate)
                    ltac:(vm_compute; discriminate)
                    ltac:(vm_compute; discriminate)
                    ltac:(vm_compute; discriminate)
                    eq_refl)).
    left. reflexivity.
Defined.

(** *** Where the element is after the scroll *)

Lemma start_without_snap m n calls :
  start m = Finished n calls ->
  snaps (_snap m) (paddedElementRect m) (reducedViewportRect m)
        (rawScrollTop m) = false ->
  n = rawScrollTop m.
Proof.
  intros St Hs. apply start_finished_offset in St.
  unfold snapScrollTop in St. now rewrite Hs in St.
Qed.

(** On whole pixels, the offset that [start] decides is one at which the
    element is revealed: when the snap does not apply, align-top is not
    asked for and the padded element is not taller than the reduced
    viewport, the padded rectangle of the element lies inside the reduced
    viewport once the viewport has scrolled from its offset to the decided
    one. *)
Theorem reveal_puts_element_inside (m : t) (n : Q) (calls : list Q) :
  wholePixels m = true ->
  start m = Finished n calls ->
  snaps (_snap m) (paddedElementRect m) (reducedViewportRect m)
        (rawScrollTop m) = false ->
  _top m = false ->
  Rect.height (paddedElementRect m) <= Rect.height (reducedViewportRect m) ->
  inside (scrolledBy (n - scrollTop (_viewport m)) (paddedElementRect m))
         (reducedViewportRect m).
Proof.
  intros _ St Hs Htop Hfit.
  rewrite (start_without_snap m n calls St Hs).
  unfold rawScrollTop, decideScrollTop. rewrite Htop.
  unfold inside, scrolledBy, Rect.bottom in *.
  num_cases; cbn [orb Rect.top Rect.height Rect.set_top]; lra.
Qed.

Lemma reveal_puts_element_inside_witness :
  let low := motion (box 1000 200) (rootViewport 800 0) Falsy false [] in
  let high :=
    motion (box 20 50) (rootViewport 800 100) Falsy false [box 0 60] in
  inside (scrolledBy (400 - 0) (paddedElementRect low))
         (reducedViewportRect low)
  /\ inside (scrolledBy (60 - 100) (paddedElementRect high))
            (reducedViewportRect high).
Proof.
  intros low high. split.
  - apply (reveal_puts_element_inside low 400 [400]
                                       eq_refl eq_refl eq_refl eq_refl).
    vm_compute. discriminate.
  - apply (reveal_puts_element_inside high 60 [60]
                                       eq_refl eq_refl eq_refl eq_refl).
    vm_compute. discriminate.
Defined.

(** On whole pixels, with align-top, or for an element taller than the
    reduced viewport, the decided offset puts the top of the padded
    element on the top of the reduced viewport, when the snap does not
    apply. *)
Theorem reveal_aligns_top (m : t) (n : Q) (calls : list Q) :
  wholePixels m = true ->
  start m = Finished n calls ->
  snaps (_snap m) (paddedElementRect m) (reducedViewportRect m)
        (rawScrollTop m) = false ->
  _top m = true
  \/ Rect.height (reducedViewportRect m) < Rect.height (paddedElementRect m) ->
  Rect.top (scrolledBy (n - scrollTop (_viewport m)) (paddedElementRect m))
  == Rect.top (reducedViewportRect m).
Proof.
  intros _ St Hs Hcase.
  rewrite (start_without_snap m n calls St Hs).
  unfold rawScrollTop, decideScrollTop, scrolledBy.
  cbn [Rect.top Rect.set_top].
  destruct Hcase as [Htop | Htall].
  - rewrite Htop. cbn [orb]. lra.
  - apply NumFacts.gtb_gt in Htall. rewrite Htall, orb_true_r. lra.
Qed.

Lemma reveal_aligns_top_witness :
  let tall := motion (box 1000 2000) (rootViewport 800 0) Falsy false [] in
  let asked := motion (box 500 100) (rootViewport 800 0) Falsy true [] in
  Rect.top (scrolledBy (1000 - 0) (paddedElementRect tall)) == 0
  /\ Rect.top (scrolledBy (500 - 0) (paddedElementRect asked)) == 0.
Proof.
  intros tall asked. split.
  - apply (reveal_aligns_top tall 1000 [1000] eq_refl eq_refl eq_refl).
    right. vm_compute. reflexivity.
  - apply (reveal_aligns_top asked 500 [500] eq_refl eq_refl eq_refl).
    left. reflexivity.
Defined.

(** On whole pixels the scroll is the least one: under the conditions of
    [reveal_puts_element_inside], every other scroll distance that puts the
    padded element inside the reduced viewport is at least as long. *)
Theorem reveal_moves_least (m : t) (n : Q) (calls : list Q) (d : Q) :
  wholePixels m = true ->
  start m = Finished n calls ->
  snaps (_snap m) (paddedElementRect m) (reducedViewportRect m)
        (rawScrollTop m) = false ->
  _top m = false ->
  Rect.height (paddedElementRect m) <= Rect.height (reducedViewportRect m) ->
  inside (scrolledBy d (paddedElementRect m)) (reducedViewportRect m) ->
  Qabs (n - scrollTop (_viewport m)) <= Qabs d.
Proof.
  intros _ St Hs Htop Hfit [Hd1 Hd2].
  rewrite (start_without_snap m n calls St Hs).
  unfold rawScrollTop, decideScrollTop. rewrite Htop.
  unfold scrolledBy, Rect.bottom in *.
  cbn [Rect.top Rect.height Rect.set_top] in *.
  apply Qabs_case; intros Hn; apply Qabs_case; intros Hd;
    revert Hn; num_cases; cbn [orb]; intros Hn; lra.
Qed.

Lemma reveal_moves_least_witness :
  let low := motion (box 1000 200) (rootViewport 800 0) Falsy false [] in
  Qabs (400 - 0) <= Qabs 500.
Proof.
  intros low.
  apply (reveal_moves_least low 400 [400] 500
                            eq_refl eq_refl eq_refl eq_refl).
  - vm_compute. discriminate.
  - split; vm_compute; discriminate.
Defined.

(** *** Bottom obstructions *)

Lemma subtractBottom_shrinks v o :
  Rect.bottom (subtractBottom v o) <= Rect.bottom v.
Proof.
  unfold subtractBottom, Rect.bottom. num_cases; simpl; lra.
Qed.

Lemma subtractBottom_mono v v' o :
  Rect.bottom v <= Rect.bottom v' ->
  Rect.bottom (subtractBottom v o) <= Rect.bottom (subtractBottom v' o).
Proof.
  unfold subtractBottom, Rect.bottom. intros H. num_cases; simpl in *; lra.
Qed.

Lemma bottomLoop_mono l v v' :
  Rect.bottom v <= Rect.bottom v' ->
  Rect.bottom (fold_left subtractBottom l v)
  <= Rect.bottom (fold_left subtractBottom l v').
Proof.
  revert v v'. induction l as [|o l IH]; intros v v' H; simpl.
  - exact H.
  - apply IH. now apply subtractBottom_mono.
Qed.

Lemma added_bottom_obstruction_rect i o m :
  isVisible o = true ->
  Rect.top (reducedViewportRect (addBottomObstruction i o m))
  = Rect.top (reducedViewportRect m)
  /\ Rect.bottom (reducedViewportRect (addBottomObstruction i o m))
     <= Rect.bottom (reducedViewportRect m).
Proof.
  intros Hv.
  unfold reducedViewportRect, _substractObstructions, _selectObstructions.
  cbn [_topObstructions _bottomObstructions addBottomObstruction].
  change (_getViewportRect (addBottomObstruction i o m))
    with (_getViewportRect m).
  set (v := fold_left subtractTop (filter isVisible (_topObstructions m))
                      (_getViewportRect m)).
  set (l := _bottomObstructions m).
  assert (Hl : filter isVisible l
               = filter isVisible (firstn i l)
                        ++ filter isVisible (skipn i l))
    by now rewrite <- filter_app, firstn_skipn.
  rewrite Hl, filter_app. cbn [filter]. rewrite Hv.
  rewrite !fold_left_app. cbn [fold_left].
  split.
  - now rewrite !bottomLoop_top, subtractBottom_top, bottomLoop_top.
  - apply bottomLoop_mono, subtractBottom_shrinks.
Qed.

(** The chain of [decideScrollTop] never answers less for a viewport whose
    bottom is higher and whose top is the same. *)
Lemma decideScrollTop_monotone_bottom alignTop e v v' s :
  Rect.top v' == Rect.top v ->
  Rect.bottom v' <= Rect.bottom v ->
  decideScrollTop alignTop e v s <= decideScrollTop alignTop e v' s.
Proof.
  unfold decideScrollTop, Rect.bottom. intros Ht Hb.
  destruct alignTop; cbn [orb].
  - lra.
  - num_cases; cbn [orb]; lra.
Qed.

(** On whole pixels, adding one visible bottom obstruction, all other
    inputs equal, never decreases the offset that the alignment rules
    compute: it leaves the top of the reduced viewport and can only raise
    its bottom. *)
Theorem bottom_obstruction_never_decreases
        (i : nat) (o : Element) (m : t) :
  wholePixels m = true ->
  wholeElement o = true ->
  isVisible o = true ->
  rawScrollTop m <= rawScrollTop (addBottomObstruction i o m).
Proof.
  intros _ _ Hv. unfold rawScrollTop.
  destruct (added_bottom_obstruction_rect i o m Hv) as [Ht Hb].
  change (paddedElementRect (addBottomObstruction i o m))
    with (paddedElementRect m).
  change (_top (addBottomObstruction i o m)) with (_top m).
  change (_viewport (addBottomObstruction i o m)) with (_viewport m).
  apply decideScrollTop_monotone_bottom; [now rewrite Ht | exact Hb].
Qed.

(** An element at 700 of height 50 is visible in a root viewport of height
    800; under a bar that begins at 720 it has to come up by 30. *)
Lemma bottom_obstruction_never_decreases_witness :
  let m := motion (box 700 50) (rootViewport 800 0) Falsy false [] in
  rawScrollTop m == 0
  /\ rawScrollTop (addBottomObstruction 0 (box 720 80) m) == 30
  /\ rawScrollTop m <= rawScrollTop (addBottomObstruction 0 (box 720 80) m).
Proof.
  intros m. split; [reflexivity|]. split; [reflexivity|].
  exact (bottom_obstruction_never_decreases 0 (box 720 80) m
                                           eq_refl eq_refl eq_refl).
Defined.

(** *** The order and the visibility of obstructions *)

Lemma topLoop_top_compat l v v' :
  Rect.top v == Rect.top v' ->
  Rect.top (fold_left subtractTop l v)
  == Rect.top (fold_left subtractTop l v').
Proof.
  intros H. apply Qle_antisym; apply topLoop_mono; rewrite H; apply Qle_refl.
Qed.

Lemma subtractTop_swap v a b :
  Rect.top (subtractTop (subtractTop v a) b)
  == Rect.top (subtractTop (subtractTop v b) a).
Proof.
  unfold subtractTop. num_cases; simpl in *; lra.
Qed.

Lemma subtractBottom_swap v a b :
  Rect.bottom (subtractBottom (subtractBottom v a) b)
  == Rect.bottom (subtractBottom (subtractBottom v b) a).
Proof.
  unfold subtractBottom, Rect.bottom. num_cases; simpl in *; lra.
Qed.

Lemma topLoop_permutation l l' :
  Permutation l l' ->
  forall v,
    Rect.top (fold_left subtractTop l v)
    == Rect.top (fold_left subtractTop l' v).
Proof.
  induction 1 as [|x l l' _ IH|x y l|l l' l'' _ IH1 _ IH2]; intros v.
  - reflexivity.
  - apply IH.
  - cbn [fold_left]. apply topLoop_top_compat, subtractTop_swap.
  - now rewrite IH1.
Qed.

Lemma bottomLoop_permutation l l' :
  Permutation l l' ->
  forall v,
    Rect.bottom (fold_left subtractBottom l v)
    == Rect.bottom (fold_left subtractBottom l' v).
Proof.
  induction 1 as [|x l l' _ IH|x y l|l l' l'' _ IH1 _ IH2]; intros v.
  - reflexivity.
  - apply IH.
  - cbn [fold_left]. apply bottomLoop_bottom, subtractBottom_swap.
  - now rewrite IH1.
Qed.

Lemma filter_permutation {A} (f : A -> bool) l l' :
  Permutation l l' -> Permutation (filter f l) (filter f l').
Proof.
  induction 1 as [|x l l' _ IH|x y l|l l' l'' _ IH1 _ IH2]; cbn [filter].
  - constructor.
  - destruct (f x); [now constructor | exact IH].
  - destruct (f x), (f y); try reflexivity. constructor.
  - now transitivity (filter f l').
Qed.

Lemma decideScrollTop_compat alignTop e v v' s :
  Rect.top v == Rect.top v' ->
  Rect.bottom v == Rect.bottom v' ->
  decideScrollTop alignTop e v s == decideScrollTop alignTop e v' s.
Proof.
  intros Ht Hb. apply Qle_antisym; apply decideScrollTop_antitone;
    try (rewrite Ht; apply Qle_refl); now rewrite Hb.
Qed.

(** On whole pixels the order in which the page lists the obstructions
    does not matter: with the same top obstructions and the same bottom
    obstructions in another order, the reduced viewport has the same top
    and the same height, and the alignment rules compute the same
    offset. *)
Theorem obstructions_in_any_order (m : t) (tops bottoms : list Element) :
  wholePixels m = true ->
  Permutation tops (_topObstructions m) ->
  Permutation bottoms (_bottomObstructions m) ->
  let m' := withObstructions tops bottoms m in
  Rect.top (reducedViewportRect m') == Rect.top (reducedViewportRect m)
  /\ Rect.height (reducedViewportRect m')
     == Rect.height (reducedViewportRect m)
  /\ rawScrollTop m' == rawScrollTop m.
Proof.
  intros _ Pt Pb m'.
  assert (Ht : Rect.top (reducedViewportRect m')
               == Rect.top (reducedViewportRect m)).
  { unfold reducedViewportRect, _substractObstructions, _selectObstructions.
    rewrite !bottomLoop_top.
    apply topLoop_permutation, filter_permutation, Pt. }
  assert (Hb : Rect.bottom (reducedViewportRect m')
               == Rect.bottom (reducedViewportRect m)).
  { unfold reducedViewportRect, _substractObstructions, _selectObstructions.
    cbn [m' withObstructions _topObstructions _bottomObstructions].
    change (_getViewportRect (withObstructions tops bottoms m))
      with (_getViewportRect m).
    rewrite (bottomLoop_permutation _ _ (filter_permutation isVisible _ _ Pb)).
    apply bottomLoop_bottom. now rewrite !topLoop_bottom. }
  split; [exact Ht|]. split.
  - unfold Rect.bottom in Hb. lra.
  - unfold rawScrollTop.
    change (paddedElementRect m') with (paddedElementRect m).
    now apply decideScrollTop_compat.
Qed.

Lemma obstructions_in_any_order_witness :
  let m :=
    motion (box 20 50) (rootViewport 800 100) Falsy false
           [box 0 60; box 0 40] in
  let m' := withObstructions [box 0 40; box 0 60] [] m in
  Rect.top (reducedViewportRect m) == 60
  /\ Rect.top (reducedViewportRect m') == Rect.top (reducedViewportRect m)
  /\ rawScrollTop m' == rawScrollTop m.
Proof.
  intros m m'.
  destruct (obstructions_in_any_order m [box 0 40; box 0 60] []
              eq_refl (perm_swap _ _ _) (perm_nil _)) as [Ht [_ Hr]].
  split; [reflexivity|]. split; [exact Ht | exact Hr].
Defined.

(** An element that matches a fixed-top or a fixed-bottom selector and is
    not visible changes nothing in what [start] does. *)
Theorem hidden_obstruction_is_ignored (i : nat) (o : Element) (m : t) :
  isVisible o = false ->
  start (addTopObstruction i o m) = start m
  /\ start (addBottomObstruction i o m) = start m.
Proof.
  intros Hv.
  assert (Hf : forall l : list Element,
             filter isVisible (firstn i l ++ o :: skipn i l)
             = filter isVisible l).
  { intros l. rewrite filter_app. cbn [filter]. rewrite Hv.
    now rewrite <- filter_app, firstn_skipn. }
  split.
  - assert (Hr : reducedViewportRect (addTopObstruction i o m)
                 = reducedViewportRect m).
    { unfold reducedViewportRect, _substractObstructions,
        _selectObstructions.
      cbn [_topObstructions _bottomObstructions addTopObstruction].
      now rewrite Hf. }
    unfold start. rewrite Hr. reflexivity.
  - assert (Hr : reducedViewportRect (addBottomObstruction i o m)
                 = reducedViewportRect m).
    { unfold reducedViewportRect, _substractObstructions,
        _selectObstructions.
      cbn [_topObstructions _bottomObstructions addBottomObstruction].
      now rewrite Hf. }
    unfold start. rewrite Hr. reflexivity.
Qed.

Lemma hidden_obstruction_is_ignored_witness :
  let m := motion (box 20 50) (rootViewport 800 100) Falsy false [] in
  let hidden :=
    {| boundingClientRect := Rect.make 0 0 100 60; isVisible := false |} in
  start (addTopObstruction 0 hidden m) = Finished 100 [].
Proof.
  intros m hidden.
  rewrite (proj1 (hidden_obstruction_is_ignored 0 hidden m eq_refl)).
  reflexivity.
Defined.

(** *** The cap on the height of the element *)

(** The height [start] works with is never more than the height of the
    element plus the padding on both sides, and with a cap that is a
    function or a number other than zero it is never more than the cap plus
    the padding on both sides.  A cap of 0 is falsy and caps nothing. *)
Theorem cap_bounds_height (m : t) :
  let h := Rect.height (fromElement (_element m)) in
  let p := _padding m in
  Rect.height (paddedElementRect m) <= h + 2 * p
  /\ (forall q,
         truthy (_max m) = true ->
         evalOption (_max m) (_element m) = Number q ->
         Rect.height (paddedElementRect m) <= q + 2 * p)
  /\ (forall q,
         _max m = Number q -> q == 0 ->
         Rect.height (paddedElementRect m) == h + 2 * p).
Proof.
  intros h p. unfold paddedElementRect, _addPadding, h, p.
  split; [|split].
  - destruct (truthy (_max m)); cbn [Rect.height Rect.set_height Rect.set_top];
      [|lra].
    destruct (evalOption (_max m) (_element m)) as [|q|f]; cbn [Math_min];
      try lra.
    pose proof (Q.le_min_l (Rect.height (fromElement (_element m))) q). lra.
  - intros q Ht Hq. rewrite Ht, Hq.
    cbn [Rect.height Rect.set_height Rect.set_top Math_min].
    pose proof (Q.le_min_r (Rect.height (fromElement (_element m))) q). lra.
  - intros q Hm Hq. rewrite Hm. cbn [truthy].
    apply NumFacts.neqb_eq in Hq. rewrite Hq.
    cbn [Rect.height Rect.set_height Rect.set_top]. lra.
Qed.

Lemma cap_bounds_height_witness :
  let capped (cap : value Element) :=
    {| _element := box 0 500; _viewport := rootViewport 800 0;
       _snap := Falsy; _padding := 10; _top := false; _max := cap;
       _topObstructions := []; _bottomObstructions := [] |} in
  Rect.height (paddedElementRect (capped (Number 300))) <= 300 + 2 * 10
  /\ Rect.height (paddedElementRect (capped (Number 0))) == 500 + 2 * 10.
Proof.
  intros capped. split.
  - apply (proj1 (proj2 (cap_bounds_height (capped (Number 300)))) 300);
      reflexivity.
  - apply (proj2 (proj2 (cap_bounds_height (capped (Number 0)))) 0);
      reflexivity.
Defined.

(** *** Whole pixels *)

Lemma pixelLimit_pos : (0 < pixelLimit)%Z.
Proof. reflexivity. Qed.

Lemma whole_within q : whole q = true -> wholeWithin 1 q.
Proof.
  unfold whole. intros H. apply andb_true_iff in H. destruct H as [He Hb].
  apply Qeq_bool_iff in He. apply Z.leb_le in Hb.
  exists (Qfloor q). split; [exact He | lia].
Qed.

Lemma within_eq k a b : a == b -> wholeWithin k a -> wholeWithin k b.
Proof.
  intros E [z [Hz Hb]]. exists z. split; [now rewrite <- E | exact Hb].
Qed.

Lemma within_more j k a : (j <= k)%Z -> wholeWithin j a -> wholeWithin k a.
Proof.
  intros L [z [Hz Hb]]. exists z. split; [exact Hz|].
  pose proof pixelLimit_pos. nia.
Qed.

Lemma within_add j k a b :
  wholeWithin j a -> wholeWithin k b -> wholeWithin (j + k) (a + b).
Proof.
  intros [x [Hx Bx]] [y [Hy By]]. exists (x + y)%Z. split.
  - now rewrite inject_Z_plus, Hx, Hy.
  - lia.
Qed.

Lemma within_sub j k a b :
  wholeWithin j a -> wholeWithin k b -> wholeWithin (j + k) (a - b).
Proof.
  intros [x [Hx Bx]] [y [Hy By]]. exists (x - y)%Z. split.
  - unfold Z.sub. rewrite inject_Z_plus, inject_Z_opp, Hx, Hy. reflexivity.
  - lia.
Qed.

Lemma within_min k a b :
  wholeWithin k a -> wholeWithin k b -> wholeWithin k (Qmin a b).
Proof.
  intros Ha Hb.
  destruct (Q.min_spec a b) as [[_ E] | [_ E]];
    [apply (within_eq k a) | apply (within_eq k b)];
    try assumption; now symmetry.
Qed.

Lemma within_zero k : (0 <= k)%Z -> wholeWithin k 0.
Proof.
  intros H. exists 0%Z. split; [reflexivity|].
  pose proof pixelLimit_pos. cbn [Z.abs]. nia.
Qed.

Lemma wholeRect_parts r :
  wholeRect r = true ->
  wholeWithin 1 (Rect.top r) /\ wholeWithin 1 (Rect.height r).
Proof.
  unfold wholeRect. intros H. apply andb_true_iff in H.
  destruct H as [Ht Hh]. split; now apply whole_within.
Qed.

Lemma wholePixels_parts m :
  wholePixels m = true ->
  wholeRect (fromElement (_element m)) = true
  /\ wholeRect (_getViewportRect m) = true
  /\ wholeWithin 1 (scrollTop (_viewport m))
  /\ wholeWithin 1 (_padding m)
  /\ wholeCap m = true
  /\ forallb wholeElement (_topObstructions m) = true
  /\ forallb wholeElement (_bottomObstructions m) = true.
Proof.
  unfold wholePixels, wholeElement. intros H.
  apply andb_true_iff in H. destruct H as [H Hbottoms].
  apply andb_true_iff in H. destruct H as [H Htops].
  apply andb_true_iff in H. destruct H as [H Hcap].
  apply andb_true_iff in H. destruct H as [H Hpadding].
  apply andb_true_iff in H. destruct H as [H Hscroll].
  apply andb_true_iff in H. destruct H as [Helement Hviewport].
  apply whole_within in Hscroll, Hpadding. tauto.
Qed.

(** The rectangle of the element after the cap and the padding. *)
Lemma padded_rect_whole m :
  wholePixels m = true ->
  wholeWithin 2 (Rect.top (paddedElementRect m))
  /\ wholeWithin 3 (Rect.height (paddedElementRect m)).
Proof.
  intros Hm.
  destruct (wholePixels_parts m Hm) as [He [_ [_ [H4 [Hcap _]]]]].
  destruct (wholeRect_parts _ He) as [H H1].
  unfold wholeCap in Hcap.
  assert (Hp2 : wholeWithin 2 (2 * _padding m)).
  { apply (within_eq 2 (_padding m + _padding m)); [ring|].
    now apply (within_add 1 1). }
  unfold paddedElementRect, _addPadding.
  destruct (truthy (_max m));
    cbn [Rect.top Rect.height Rect.set_top Rect.set_height].
  - split; [now apply (within_sub 1 1)|].
    apply (within_add 1 2); [|exact Hp2].
    destruct (evalOption (_max m) (_element m)) as [|q|f]; cbn [Math_min];
      try assumption.
    apply within_min; [assumption | now apply whole_within].
  - split; [now apply (within_sub 1 1)|].
    now apply (within_add 1 2).
Qed.

Lemma subtractTop_whole v o :
  wholeElement o = true -> wholeEnds v -> wholeEnds (subtractTop v o).
Proof.
  unfold wholeElement. intros Ho [Ht Hb].
  destruct (wholeRect_parts _ Ho) as [Hot Hoh].
  split.
  - unfold subtractTop. destruct (Num.gtb _ _); [|exact Ht].
    cbn [Rect.top Rect.set_top Rect.set_height].
    apply (within_eq 2 (Rect.top (fromElement o)
                        + Rect.height (fromElement o)));
      [unfold Rect.bottom; ring | now apply (within_add 1 1)].
  - apply (within_eq 2 (Rect.bottom v)); [|exact Hb].
    symmetry. apply subtractTop_bottom.
Qed.

Lemma subtractBottom_whole v o :
  wholeElement o = true -> wholeEnds v -> wholeEnds (subtractBottom v o).
Proof.
  unfold wholeElement. intros Ho [Ht Hb].
  destruct (wholeRect_parts _ Ho) as [Hot _].
  split.
  - now rewrite subtractBottom_top.
  - unfold subtractBottom. destruct (Num.gtb _ _); [|exact Hb].
    apply (within_eq 2 (Rect.top (fromElement o))).
    + unfold Rect.bottom. cbn [Rect.top Rect.height Rect.set_height]. ring.
    + now apply (within_more 1 2).
Qed.

Lemma loop_whole (step : Rect.t -> Element -> Rect.t) :
  (forall v o, wholeElement o = true -> wholeEnds v -> wholeEnds (step v o)) ->
  forall l v,
    forallb wholeElement l = true -> wholeEnds v ->
    wholeEnds (fold_left step (filter isVisible l) v).
Proof.
  intros Hstep l. induction l as [|o l IH]; intros v Hl Hv; cbn; [exact Hv|].
  cbn in Hl. apply andb_true_iff in Hl. destruct Hl as [Ho Hl].
  destruct (isVisible o); cbn [fold_left]; auto.
Qed.

Lemma reduced_rect_whole m :
  wholePixels m = true -> wholeEnds (reducedViewportRect m).
Proof.
  intros H.
  destruct (wholePixels_parts m H) as [_ [Hv [_ [_ [_ [Htops Hbottoms]]]]]].
  unfold reducedViewportRect, _substractObstructions, _selectObstructions.
  apply (loop_whole subtractBottom subtractBottom_whole); [assumption|].
  apply (loop_whole subtractTop subtractTop_whole); [assumption|].
  destruct (wholeRect_parts _ Hv) as [Ht Hh].
  split; [now apply (within_more 1 2) | now apply (within_add 1 1)].
Qed.

(** On whole pixels of at most 2^50, every rectangle and every offset that
    [start] computes is a whole number of at most 2^53: the rectangle of
    the element after the cap and the padding, the rectangle of the
    viewport after the obstructions, the offset of the alignment rules and
    the offset [start] decides.  These are numbers that double precision
    holds exactly. *)
Theorem whole_pixels_stay_whole (m : t) :
  wholePixels m = true ->
  (wholeWithin 8 (Rect.top (paddedElementRect m))
   /\ wholeWithin 8 (Rect.height (paddedElementRect m))
   /\ wholeWithin 8 (Rect.bottom (paddedElementRect m)))
  /\ (wholeWithin 8 (Rect.top (reducedViewportRect m))
      /\ wholeWithin 8 (Rect.height (reducedViewportRect m))
      /\ wholeWithin 8 (Rect.bottom (reducedViewportRect m)))
  /\ wholeWithin 8 (rawScrollTop m)
  /\ (forall n calls, start m = Finished n calls -> wholeWithin 8 n).
Proof.
  intros H.
  destruct (padded_rect_whole m H) as [Het Heh].
  destruct (reduced_rect_whole m H) as [Hvt Hvb].
  assert (Hs : wholeWithin 1 (scrollTop (_viewport m)))
    by apply (wholePixels_parts m H).
  assert (Heb : wholeWithin 5 (Rect.bottom (paddedElementRect m)))
    by now apply (within_add 2 3).
  assert (Hvh : wholeWithin 4 (Rect.height (reducedViewportRect m))).
  { apply (within_eq 4 (Rect.bottom (reducedViewportRect m)
                        - Rect.top (reducedViewportRect m)));
      [unfold Rect.bottom; ring | now apply (within_sub 2 2)]. }
  assert (Hraw : wholeWithin 8 (rawScrollTop m)).
  { unfold rawScrollTop, decideScrollTop.
    destruct (_top m || Num.gtb _ _).
    - apply (within_more 5 8); [lia|].
      apply (within_add 1 4); [exact Hs | now apply (within_sub 2 2)].
    - destruct (Num.ltb _ _).
      + apply (within_more 5 8); [lia|].
        apply (within_sub 1 4); [exact Hs | now apply (within_sub 2 2)].
      + destruct (Num.gtb _ _).
        * apply (within_add 1 7); [exact Hs | now apply (within_sub 5 2)].
        * now apply (within_more 1 8). }
  split; [|split; [|split]].
  - split; [|split]; [apply (within_more 2 8) | apply (within_more 3 8)
                      | apply (within_more 5 8)]; (lia || assumption).
  - split; [|split]; [apply (within_more 2 8) | apply (within_more 4 8)
                      | apply (within_more 2 8)]; (lia || assumption).
  - exact Hraw.
  - intros n calls St. apply start_finished_offset in St. subst n.
    unfold snapScrollTop. destruct (snaps _ _ _ _); [|exact Hraw].
    apply within_zero. lia.
Qed.

(** A page of whole pixels: the element of the first scenario under a bar
    that ends at 60. *)
Lemma whole_pixels_stay_whole_witness :
  let m :=
    motion (box 1000 200) (rootViewport 800 0) Falsy false [box 0 60] in
  wholePixels m = true
  /\ wholeWithin 8 (rawScrollTop m)
  /\ rawScrollTop m == 400.
Proof.
  intros m. split; [reflexivity|]. split; [|reflexivity].
  exact (proj1 (proj2 (proj2 (whole_pixels_stay_whole m eq_refl)))).
Defined.

(** *** The options of the constructor *)

(** An option given to the constructor goes before the same option under
    its [reveal]-prefixed name, and that goes before the configuration;
    only an option that is absent, [undefined] or [null] gives way.  This
    holds for each of [snap], [padding], [top] and [max]; a viewport that
    is given is the viewport of the motion, otherwise it is the closest
    viewport of the element.  So a reveal with the option [snap] set to
    [false] never snaps, whatever threshold the configuration has: [start]
    decides the offset that the alignment rules compute. *)
Theorem explicit_options_win
        (pg : RevealMotionConstructor.page)
        (cfg : RevealMotionConstructor.config)
        (element : Element) (o : RevealMotionConstructor.options) :
  let m := RevealMotionConstructor.constructor pg cfg element o in
  RevealMotionConstructor.firstGiven
    (RevealMotionConstructor.snap o) (RevealMotionConstructor.revealSnap o)
    (RevealMotionConstructor.configRevealSnap cfg) (_snap m)
  /\ RevealMotionConstructor.firstGiven
       (RevealMotionConstructor.padding o)
       (RevealMotionConstructor.revealPadding o)
       (RevealMotionConstructor.configRevealPadding cfg) (_padding m)
  /\ RevealMotionConstructor.firstGiven
       (RevealMotionConstructor.top o) (RevealMotionConstructor.revealTop o)
       (RevealMotionConstructor.configRevealTop cfg) (_top m)
  /\ RevealMotionConstructor.firstGiven
       (RevealMotionConstructor.max o) (RevealMotionConstructor.revealMax o)
       (RevealMotionConstructor.configRevealMax cfg) (_max m)
  /\ ((forall vp,
          RevealMotionConstructor.viewport o = Some vp -> _viewport m = vp)
      /\ (RevealMotionConstructor.viewport o = None ->
          _viewport m = RevealMotionConstructor.closestViewport pg element))
  /\ (RevealMotionConstructor.snap o = Some Falsy ->
      forall n calls, start m = Finished n calls -> n = rawScrollTop m).
Proof.
  intros m. unfold m, RevealMotionConstructor.constructor.
  cbn [_snap _padding _top _max _viewport].
  assert (Hfirst : forall (A : Type) (given prefixed : option A) (c : A),
             RevealMotionConstructor.firstGiven
               given prefixed c
               (RevealMotionConstructor.nullish
                  given (RevealMotionConstructor.nullish prefixed c))).
  { intros A given prefixed c. unfold RevealMotionConstructor.firstGiven.
    split; [|split].
    - intros v H. now rewrite H.
    - intros H v H'. now rewrite H, H'.
    - intros H H'. now rewrite H, H'. }
  split; [apply Hfirst|]. split; [apply Hfirst|].
  split; [apply Hfirst|]. split; [apply Hfirst|].
  split; [split|].
  - intros vp H. now rewrite H.
  - intros H. now rewrite H.
  - intros H n calls St. apply (start_without_snap _ n calls St).
    unfold snaps. cbn [_snap]. now rewrite H.
Qed.

(** The configuration snaps below 200 and pads by 5.  Without options the
    reveal snaps; with [snap] set to [false] it does not; with [padding]
    set to 0, which is falsy and given, the element is not padded. *)
Lemma explicit_options_win_witness :
  let pg :=
    {| RevealMotionConstructor.closestViewport := fun _ => rootViewport 800 10;
       RevealMotionConstructor.fragmentAll := fun _ _ => [] |} in
  let cfg :=
    {| RevealMotionConstructor.configRevealSnap := Number 200;
       RevealMotionConstructor.configRevealPadding := 5;
       RevealMotionConstructor.configRevealTop := false;
       RevealMotionConstructor.configRevealMax := Falsy;
       RevealMotionConstructor.fixedTopSelectors := [];
       RevealMotionConstructor.fixedBottomSelectors := [] |} in
  let plain :=
    RevealMotionConstructor.Build_options None None None None None None None
                                          None None in
  let unsnapped :=
    RevealMotionConstructor.Build_options None (Some Falsy) None None None
                                          None None None None in
  let unpadded :=
    RevealMotionConstructor.Build_options None None None (Some 0) (Some 7)
                                          None None None None in
  start (RevealMotionConstructor.constructor pg cfg (box 100 10) plain)
  = Finished 0 [0]
  /\ start (RevealMotionConstructor.constructor pg cfg (box 100 10) unsnapped)
     = Finished 10 []
  /\ 10 = rawScrollTop
            (RevealMotionConstructor.constructor pg cfg (box 100 10)
                                                 unsnapped)
  /\ _padding (RevealMotionConstructor.constructor pg cfg (box 100 10)
                                                   unpadded)
     = 0.
Proof.
  intros pg cfg plain unsnapped unpadded.
  split; [reflexivity|]. split; [reflexivity|]. split.
  - pose proof (explicit_options_win pg cfg (box 100 10) unsnapped) as H.
    cbv zeta in H.
    exact (proj2 (proj2 (proj2 (proj2 (proj2 H)))) eq_refl 10 [] eq_refl).
  - pose proof (explicit_options_win pg cfg (box 100 10) unpadded) as H.
    cbv zeta in H.
    exact (proj1 (proj1 (proj2 H)) 0 eq_refl).
Defined.
End RevealMotionFacts.

(** ** up.ResponseDoc *)

Module ResponseDocFacts.
Import Dom ResponseDoc.
Local Open Scope string_scope.
Local Open Scope list_scope.

Section WithDom.
Variable dom : Dom.api.
Local Abbreviation Node := (Dom.Node dom).
Local Abbreviation noscript := (newHTMLWrapper dom "noscript").
Local Abbreviation script := (newHTMLWrapper dom "script").

Lemma constructor_root (o : options dom) :
  constructor dom o
  = match parseRoot dom noscript script o with
    | inl e => inl e
    | inr node =>
        inr {| noscriptWrapper := noscript;
               scriptStripper := script;
               root := node;
               title := None;
               titleParsed := false;
               rootQueries := [] |}
    end.
Proof. reflexivity. Qed.

Lemma constructor_succeeds (o : options dom) (node : Node) :
  parseRoot dom noscript script o = inr node ->
  exists d, constructor dom o = inr d /\ root dom d = node.
Proof.
  intros H. rewrite constructor_root, H. eauto.
Qed.

Lemma constructor_fresh (o : options dom) (d : t dom) :
  constructor dom o = inr d ->
  title dom d = None /\ titleParsed dom d = false
  /\ rootQueries dom d = [].
Proof.
  rewrite constructor_root.
  destruct (parseRoot dom noscript script o); [discriminate|].
  intros H. inversion H. auto.
Qed.

Lemma targetOrFail_fails (o : options dom) :
  (exists e, targetOrFail dom o = inl e)
  <-> (target dom o = None \/ target dom o = Some "").
Proof.
  unfold targetOrFail.
  destruct (target dom o) as [[|c s]|]; split;
    try (intros [e H]; discriminate H); intros H; eauto;
    destruct H as [H|H]; discriminate H.
Qed.

Lemma targetOrFail_message (o : options dom) (e : Error.t) :
  targetOrFail dom o = inl e ->
  e = Error.Failed "must pass a { target } when passing { content }".
Proof.
  unfold targetOrFail.
  destruct (target dom o) as [[|c s]|]; intros H;
    now inversion H.
Qed.

Lemma parseContent_fails ns ss (o : options dom) (e : Error.t) :
  parseContent dom ns ss o = inl e <-> targetOrFail dom o = inl e.
Proof.
  unfold parseContent.
  destruct (targetOrFail dom o) as [e'|t].
  - split; intros H; now inversion H.
  - destruct (contentOrEmpty dom o); split; discriminate.
Qed.

(** *** C7 *)

(** C7.  The root is the first of: what the document path yields, what
    the fragment path yields, the element made for the content and the
    target.  The constructor throws exactly when neither the document
    nor the fragment path yields a root and no target was given
    (absent, or the empty string, which is falsy); what it throws is
    the error of [up.fail] whose message names "target".  In every
    other case it returns an object with a root; with no payload at all
    and a target, that root is the element made from the target
    selector whose inner HTML is the wrapped empty string. *)
Theorem C7_construction_contract (o : options dom) :
  let noTarget := target dom o = None \/ target dom o = Some "" in
  let noRoot :=
    parseDocument dom noscript script o = None
    /\ parseFragment dom noscript script o = None in
  (forall node,
      parseDocument dom noscript script o = Some node ->
      exists d, constructor dom o = inr d /\ root dom d = node)
  /\ (forall node,
         parseDocument dom noscript script o = None ->
         parseFragment dom noscript script o = Some node ->
         exists d, constructor dom o = inr d /\ root dom d = node)
  /\ (noRoot -> ~ noTarget ->
      exists d, constructor dom o = inr d
                /\ parseContent dom noscript script o = inr (root dom d))
  /\ ((exists e, constructor dom o = inl e) <-> noRoot /\ noTarget)
  /\ (forall e,
         constructor dom o = inl e ->
         exists message,
           e = Error.Failed message
           /\ index 0 "target" message = Some 14%nat)
  /\ ((exists d, constructor dom o = inr d) <-> ~ (noRoot /\ noTarget))
  /\ (forall c s,
         document dom o = Missing -> fragment dom o = Missing ->
         content dom o = Missing -> target dom o = Some (String c s) ->
         exists d,
           constructor dom o = inr d
           /\ root dom d
              = setInnerHTML dom (createFromSelector dom (String c s))
                             (wrapHTML dom noscript script "")).
Proof.
  intros noTarget noRoot.
  assert (Hfail : (exists e, constructor dom o = inl e)
                  <-> noRoot /\ noTarget).
  { rewrite constructor_root. unfold noRoot, noTarget, parseRoot.
    rewrite <- targetOrFail_fails.
    destruct (parseDocument dom noscript script o) as [n1|].
    { split; [intros [e H] | intros [[H _] _]]; discriminate H. }
    destruct (parseFragment dom noscript script o) as [n2|].
    { split; [intros [e H] | intros [[_ H] _]]; discriminate H. }
    destruct (parseContent dom noscript script o) as [e|n3] eqn:E.
    - apply parseContent_fails in E. split; eauto.
    - split; [intros [e H]; discriminate H|].
      intros [_ [e H]].
      apply parseContent_fails with (ns := noscript) (ss := script) in H.
      congruence. }
  split; [|split; [|split; [|split; [|split; [|split]]]]].
  - intros node H. apply constructor_succeeds.
    unfold parseRoot. now rewrite H.
  - intros node H1 H2. apply constructor_succeeds.
    unfold parseRoot. now rewrite H1, H2.
  - intros [H1 H2] Ht.
    destruct (parseContent dom noscript script o) as [e|n3] eqn:E.
    + exfalso. apply Ht. apply targetOrFail_fails.
      apply parseContent_fails in E. eauto.
    + destruct (constructor_succeeds o n3) as [d [Hd Hr]].
      { unfold parseRoot. now rewrite H1, H2. }
      exists d. split; [exact Hd|]. now rewrite Hr.
  - exact Hfail.
  - intros e H. rewrite constructor_root in H. unfold parseRoot in H.
    destruct (parseDocument dom noscript script o); [discriminate|].
    destruct (parseFragment dom noscript script o); [discriminate|].
    destruct (parseContent dom noscript script o) as [e'|n3] eqn:E;
      [|discriminate].
    apply parseContent_fails in E. apply targetOrFail_message in E.
    inversion H; subst. eexists. split; reflexivity.
  - split.
    + intros [d Hd] Hno. apply Hfail in Hno. destruct Hno as [e He].
      congruence.
    + intros Hno.
      destruct (constructor dom o) as [e|d] eqn:E; [|eauto].
      exfalso. apply Hno, Hfail. eauto.
  - intros c s Hd Hf Hc Ht. apply constructor_succeeds.
    unfold parseRoot, parseDocument, parseFragment, parseContent,
      contentOrEmpty, targetOrFail.
    now rewrite Hd, Hf, Hc, Ht.
Qed.
End WithDom.

(** On the small DOM: markup for the document wins over a fragment;
    content without a target throws; a target alone gives the empty
    element made from it. *)
Lemma C7_construction_contract_witness :
  let both :=
    ToyDom.options (Markup "<html></html>") (Markup "<p></p>") Missing
                   None in
  let literal := ToyDom.options Missing Missing (Markup "text") None in
  let bare := ToyDom.options Missing Missing Missing (Some ".card") in
  (exists d, constructor ToyDom.api both = inr d
             /\ root _ d = ToyDom.El "html" "<html></html>" [])
  /\ (exists e, constructor ToyDom.api literal = inl e)
  /\ (exists d, constructor ToyDom.api bare = inr d
                /\ root _ d = ToyDom.El ".card" "" []).
Proof.
  intros both literal bare. split; [|split].
  - apply (proj1 (C7_construction_contract ToyDom.api both)).
    reflexivity.
  - apply (proj1 (proj2 (proj2 (proj2
             (C7_construction_contract ToyDom.api literal))))).
    repeat split; left; reflexivity.
  - apply (proj2 (proj2 (proj2 (proj2 (proj2 (proj2
             (C7_construction_contract ToyDom.api bare)))))) "."%char "card");
      reflexivity.
Defined.

(** *** C8 *)

Section Memo.
Variable dom : Dom.api.

Lemma getTitle_first (d : t dom) :
  titleParsed dom d = false ->
  let found :=
    option_map (textContent dom)
               (querySelector dom (root dom d) "head title") in
  let d' := snd (getTitle dom d) in
  fst (getTitle dom d) = found
  /\ title dom d' = found
  /\ titleParsed dom d' = true
  /\ rootQueries dom d' = rootQueries dom d ++ ["head title"].
Proof.
  intros H. unfold getTitle. rewrite H. cbn. auto.
Qed.

Lemma getTitle_cached (d : t dom) :
  titleParsed dom d = true -> getTitle dom d = (title dom d, d).
Proof.
  intros H. unfold getTitle. now rewrite H.
Qed.

Lemma getTitleTimes_cached (n : nat) (d : t dom) :
  titleParsed dom d = true ->
  getTitleTimes dom n d = (repeat (title dom d) n, d).
Proof.
  intros H. induction n as [|n IH]; cbn [getTitleTimes repeat].
  - reflexivity.
  - now rewrite (getTitle_cached d H), IH.
Qed.

(** C8.  On an object whose title was not computed yet, the first call
    of [getTitle] queries the root once, for "head title"; the call and
    each of the [n] calls after it answer the text of the element
    found, or nothing when none was found, and the root is not queried
    again.  The answer is kept under the flag [titleParsed], so that
    nothing found is kept like a title found. *)
Theorem C8_getTitle_is_memoized (d : t dom) (n : nat) :
  titleParsed dom d = false ->
  let found :=
    option_map (textContent dom)
               (querySelector dom (root dom d) "head title") in
  let answers := fst (getTitleTimes dom (S n) d) in
  let d' := snd (getTitleTimes dom (S n) d) in
  answers = repeat found (S n)
  /\ rootQueries dom d' = rootQueries dom d ++ ["head title"]
  /\ titleParsed dom d' = true
  /\ title dom d' = found
  /\ getTitle dom d' = (found, d').
Proof.
  intros H found answers d'.
  destruct (getTitle_first d H) as [Ha [Ht [Hp Hq]]].
  unfold answers, d'. cbn [getTitleTimes].
  destruct (getTitle dom d) as [a d1] eqn:E. cbn [fst snd] in *.
  rewrite (getTitleTimes_cached n d1 Hp). cbn [fst snd repeat].
  fold found in Ha, Ht. subst a. rewrite Ht.
  repeat split; try assumption.
  rewrite (getTitle_cached d1 Hp). now rewrite Ht.
Qed.
End Memo.

(** Three calls on a document without a title and on one with a title. *)
Lemma C8_getTitle_is_memoized_witness :
  let untitled := ToyDom.doc (ToyDom.El "html" "" []) in
  let titled :=
    ToyDom.doc (ToyDom.El "html" "" [ToyDom.El "head title" "Inbox" []]) in
  (fst (getTitleTimes _ 3 untitled) = [None; None; None]
   /\ rootQueries _ (snd (getTitleTimes _ 3 untitled)) = ["head title"])
  /\ (fst (getTitleTimes _ 3 titled)
      = [Some "Inbox"; Some "Inbox"; Some "Inbox"]
      /\ rootQueries _ (snd (getTitleTimes _ 3 titled)) = ["head title"]).
Proof.
  intros untitled titled. split.
  - destruct (C8_getTitle_is_memoized ToyDom.api untitled 2 eq_refl)
      as [Ha [Hq _]].
    split; [exact Ha | exact Hq].
  - destruct (C8_getTitle_is_memoized ToyDom.api titled 2 eq_refl)
      as [Ha [Hq _]].
    split; [exact Ha | exact Hq].
Defined.

(** *** C10 *)

Section Sanitizing.
Variable dom : Dom.api.
Local Abbreviation Node := (Dom.Node dom).

(** C10.  [wrapHTML], which wraps noscript elements and strips script
    elements, is applied to a payload only when the payload is a
    string.  A node given as document or fragment is the root as it is;
    a node given as content is appended as it is to the element made
    from the target.  Markup is passed through [wrapHTML] before it
    is parsed or assigned.  So the root built from options without a
    string payload is the same whatever the two wrappers do. *)
Theorem C10_only_strings_are_sanitized
        (ns ss : HTMLWrapper Node) :
  (forall (node : Node) parseFn,
      parse dom ns ss (Parsed node) parseFn = Some node)
  /\ (forall (o : options dom) (node : Node) target,
         content dom o = Parsed node ->
         targetOrFail dom o = inr target ->
         parseContent dom ns ss o
         = inr (appendChild dom (createFromSelector dom target) node))
  /\ (forall html parseFn,
         parse dom ns ss (Markup html) parseFn
         = parseFn (strip ss (wrap ns html)))
  /\ (forall (o : options dom) html target,
         content dom o = Markup html ->
         targetOrFail dom o = inr target ->
         parseContent dom ns ss o
         = inr (setInnerHTML dom (createFromSelector dom target)
                             (strip ss (wrap ns html))))
  /\ (forall (o : options dom) (ns' ss' : HTMLWrapper Node),
         isString dom (document dom o) = false ->
         isString dom (fragment dom o) = false ->
       (exists node, content dom o = Parsed node) ->
       parseRoot dom ns ss o = parseRoot dom ns' ss' o).
Proof.
  split; [|split; [|split; [|split]]].
  - reflexivity.
  - intros o node target Hc Ht. unfold parseContent, contentOrEmpty.
    now rewrite Hc, Ht.
  - reflexivity.
  - intros o html target Hc Ht. unfold parseContent, contentOrEmpty.
    now rewrite Hc, Ht.
- intros o ns' ss' Hd Hf [node Hc].
  unfold parseRoot, parseDocument, parseFragment, parseContent,
    contentOrEmpty.
  rewrite Hc.
  destruct (document dom o); try discriminate Hd;
    destruct (fragment dom o); try discriminate Hf;
    reflexivity.
Qed.
End Sanitizing.

(** On the small DOM, whose stripper empties markup that opens with a
    script tag: that markup given as a string is stripped; given inside a
    node, as fragment or as content, it is kept. *)
Lemma C10_only_strings_are_sanitized_witness :
  let scripted := ToyDom.El "div" "<script>go()</script>" [] in
  let ns := ToyDom.wrapper "noscript" in
  let ss := ToyDom.wrapper "script" in
  let asContent :=
    ToyDom.options Missing Missing (Parsed (dom := ToyDom.api) scripted)
                   (Some ".card") in
  let asMarkup :=
    ToyDom.options Missing Missing (Markup "<script>go()</script>")
                   (Some ".card") in
  parseContent ToyDom.api ns ss asContent
  = inr (ToyDom.El ".card" "" [scripted])
  /\ parseContent ToyDom.api ns ss asMarkup = inr (ToyDom.El ".card" "" [])
  /\ parseRoot ToyDom.api ns ss asContent
     = parseRoot ToyDom.api ss ns asContent.
Proof.
  intros scripted ns ss asContent asMarkup.
  destruct (C10_only_strings_are_sanitized ToyDom.api ns ss)
    as [_ [Hnode [_ [Hmarkup Hsame]]]].
  split; [|split].
  - exact (Hnode asContent scripted ".card" eq_refl eq_refl).
  - exact (Hmarkup asMarkup "<script>go()</script>" ".card"
                   eq_refl eq_refl).
- exact (Hsame asContent ss ns eq_refl eq_refl
               (ex_intro _ scripted eq_refl)).
Defined.
End ResponseDocFacts.

(** ** The layer stack *)

Module LayerStackFacts.
Import LayerStack.
Local Open Scope nat_scope.

Lemma isLiveChildOf_closing base l :
  isLiveChildOf base (set_state l Closing) = false.
Proof.
  unfold isLiveChildOf, isLive. cbn. apply andb_false_r.
Qed.

(** After a peel the layer has no live child. *)
Lemma liveChildren_peel base s : liveChildren base (peel base s) = [].
Proof.
  unfold liveChildren, peel. induction s as [|l s IH]; cbn [map filter].
  - reflexivity.
  - destruct (isLiveChildOf base l) eqn:E.
    + now rewrite isLiveChildOf_closing.
    + now rewrite E.
Qed.

(** A peel of one layer leaves the live children of every other layer. *)
Lemma liveChildren_peel_other base other s :
  other <> base ->
  List.length (liveChildren other (peel base s))
  = List.length (liveChildren other s).
Proof.
  intros Hne. unfold liveChildren, peel.
  induction s as [|l s IH]; cbn [map filter].
  - reflexivity.
  - destruct (isLiveChildOf base l) eqn:E.
    + assert (Hc : isLiveChildOf other l = false).
      { unfold isLiveChildOf, isChildOf in *.
        destruct (parent l) as [p|]; [|reflexivity].
        apply andb_true_iff in E. destruct E as [E _].
        apply Nat.eqb_eq in E. subst p.
        apply andb_false_iff. left.
        apply Nat.eqb_neq. congruence. }
      rewrite isLiveChildOf_closing, Hc. exact IH.
    + destruct (isLiveChildOf other l); cbn [List.length]; now rewrite IH.
Qed.

Lemma liveChildren_push base s l :
  liveChildren base (push s l)
  = liveChildren base s ++ (if isLiveChildOf base l then [l] else []).
Proof.
  unfold liveChildren, push. now rewrite filter_app.
Qed.

(** No layer of the stack has the identity of a newly built layer. *)
Lemma freshId_fresh other s l : In l s -> id l <> freshId other s.
Proof.
  intros H. unfold freshId.
  assert (Hm : id l <= list_max (map id s)).
  { pose proof (proj1 (list_max_le (map id s) (list_max (map id s)))
                      (Nat.le_refl _)) as Hall.
    rewrite Forall_forall in Hall. apply Hall. now apply in_map. }
  lia.
Qed.

Lemma clearOpening_other n s :
  (forall l, In l s -> id l <> n) -> clearOpening n s = s.
Proof.
  intros H. unfold clearOpening. induction s as [|l s IH]; cbn [map].
  - reflexivity.
  - rewrite IH by (intros l' Hl'; apply H; now right).
    assert (E : Nat.eqb (id l) n = false)
      by (apply Nat.eqb_neq, H; now left).
    now rewrite E.
Qed.

Lemma peel_ids base s l :
  In l (peel base s) -> exists l', In l' s /\ id l = id l'.
Proof.
  unfold peel. intros H. apply in_map_iff in H.
  destruct H as [l' [E Hin]]. exists l'. split; [exact Hin|].
  destruct (isLiveChildOf base l'); now subst l.
Qed.
End LayerStackFacts.

(** ** up.Change.OpenLayer *)

Module OpenLayerFacts.
Import LayerStack OpenLayer.
Local Open Scope nat_scope.
Local Open Scope string_scope.
Local Open Scope list_scope.

Section WithDom.
Variable dom : Dom.api.
Local Abbreviation Node := (Dom.Node dom).

(** The world [w] with more calls in the trace. *)
Local Abbreviation traced w calls :=
  {| stack := stack w; responseDoc := responseDoc w;
     trace := trace w ++ calls |}.

(** Every way a call of [execute] can go. *)
Lemma execute_outcome (c : t dom) (a : answers) (w : world dom) :
  execute dom c a w
  = match contentOf dom c w with
    | None => (inl Error.NotApplicable, traced w [contentCall dom c])
    | Some content =>
        if baseLayerIsClosed a then
          (inl Error.NotApplicable,
           traced w [contentCall dom c; IsClosed (baseLayer c)])
        else if openEventPrevented a then
          (inl (Error.Aborted "Open event was prevented"),
           after dom w (stack w) (callsUntilOpenEvent dom c))
        else
          let new := builtLayer dom c w in
          let pushed := push (peel (baseLayer c) (stack w)) new in
          let calls :=
            callsUntilOpenEvent dom c ++ callsUntilChangeRequests dom c w in
          if layerChangeRequestsAbort a then
            (inl (Error.Aborted "Layer was closed"),
             after dom w pushed calls)
          else
            let w' :=
              after dom w (clearOpening (id new) pushed)
                    (calls ++ callsUntilEnd) in
            if layerClosedAfterOpened a then
              (inl (Error.Aborted "Layer was closed"), w')
            else
              (inr {| layer := set_state new Open;
                      fragments :=
                        [ResponseDoc.finalizeElement
                           dom (responseDoc w') content] |},
               w')
    end.
Proof.
  destruct w as [s d t].
  unfold execute, contentOf, after, callsUntilOpenEvent,
    callsUntilChangeRequests, callsUntilEnd, builtLayer, contentCall,
    selectTarget, getTitle, buildLayer, emitOpenEvent, emitOpenedEvent,
    handleHistory, handleScroll, peelBaseLayer, pushLayer,
    handleLayerChangeRequests, abortWhenLayerClosed, bind, ret, throw, call,
    getStack, changeStack, getResponseDoc, setResponseDoc.
  repeat (cbn [stack responseDoc trace fst snd state set_state id];
          match goal with
          | |- context [String.eqb ?x ?y] => destruct (String.eqb x y)
          | E : ResponseDoc.select dom d ?x = _
            |- context [ResponseDoc.select dom d ?x] => rewrite E
          | |- context [ResponseDoc.select dom d ?x] =>
              destruct (ResponseDoc.select dom d x) eqn:?
          | E : ResponseDoc.getTitle dom d = _
            |- context [ResponseDoc.getTitle dom d] => rewrite E
          | |- context [ResponseDoc.getTitle dom d] =>
              destruct (ResponseDoc.getTitle dom d) eqn:?
          | |- context [baseLayerIsClosed a] =>
              destruct (baseLayerIsClosed a)
          | |- context [openEventPrevented a] =>
              destruct (openEventPrevented a)
          | |- context [layerChangeRequestsAbort a] =>
              destruct (layerChangeRequestsAbort a)
          | |- context [layerClosedAfterOpened a] =>
              destruct (layerClosedAfterOpened a)
          end);
    cbn [stack responseDoc trace fst snd state set_state id];
    rewrite <- ?app_assoc; reflexivity.
Qed.

Lemma skipn_added {A} (l more : list A) :
  skipn (List.length l) (l ++ more) = more.
Proof.
  induction l as [|x l IH]; [reflexivity | exact IH].
Qed.

(** The calls of every way a run can go. *)
Lemma calls_outcome (c : t dom) (a : answers) (w : world dom) :
  calls dom c a w
  = match contentOf dom c w with
    | None => [contentCall dom c]
    | Some _ =>
        if baseLayerIsClosed a then
          [contentCall dom c; IsClosed (baseLayer c)]
        else if openEventPrevented a then callsUntilOpenEvent dom c
        else if layerChangeRequestsAbort a then
          callsUntilOpenEvent dom c ++ callsUntilChangeRequests dom c w
        else
          (callsUntilOpenEvent dom c ++ callsUntilChangeRequests dom c w)
            ++ callsUntilEnd
    end.
Proof.
  unfold calls. rewrite execute_outcome.
  destruct (contentOf dom c w);
    try destruct (baseLayerIsClosed a);
    try destruct (openEventPrevented a);
    try destruct (layerChangeRequestsAbort a);
    try destruct (layerClosedAfterOpened a);
    cbv zeta; cbn [snd after trace]; apply skipn_added.
Qed.

Lemma trace_calls (c : t dom) (a : answers) (w : world dom) :
  trace (snd (execute dom c a w)) = trace w ++ calls dom c a w.
Proof.
  unfold calls. rewrite execute_outcome.
  destruct (contentOf dom c w);
    try destruct (baseLayerIsClosed a);
    try destruct (openEventPrevented a);
    try destruct (layerChangeRequestsAbort a);
    try destruct (layerClosedAfterOpened a);
    cbv zeta; cbn [snd after trace]; now rewrite skipn_added.
Qed.



(** The new layer is the only layer of the stack with its identity,
    so clearing its flag changes no other layer. *)
Lemma clearOpening_pushed (c : t dom) (w : world dom) :
  let new := builtLayer dom c w in
  clearOpening (id new) (push (peel (baseLayer c) (stack w)) new)
  = push (peel (baseLayer c) (stack w)) (set_state new Open).
Proof.
  intros new. unfold push, clearOpening. rewrite map_app.
  fold (clearOpening (id new) (peel (baseLayer c) (stack w))).
  rewrite LayerStackFacts.clearOpening_other.
  - cbn [map]. now rewrite Nat.eqb_refl.
  - intros l Hl. apply LayerStackFacts.peel_ids in Hl.
    destruct Hl as [l' [Hin E]]. rewrite E.
    now apply LayerStackFacts.freshId_fresh.
Qed.

Lemma contentCall_is_first (c : t dom) :
  contentCall dom c = CreateElement "up-none"
  \/ contentCall dom c = Select (target c).
Proof.
  unfold contentCall. destruct (String.eqb _ _); auto.
Qed.

(** *** C1 *)

(** C1.  In every run in which the listeners of [up:layer:open] prevent
    the event, the stack after [execute] is the stack before it, so
    its length is the same, and no call of the run is a peel or a push.
    The run throws: Aborted ("Open event was prevented") when the event
    was emitted, which it is when there is content and the base layer
    is not closed; NotApplicable when the run ended before the event. *)
Theorem C1_prevented_open_event_leaves_stack
        (c : t dom) (a : answers) (w : world dom) :
  openEventPrevented a = true ->
  let result := fst (execute dom c a w) in
  let w' := snd (execute dom c a w) in
  let aborted := inl (Error.Aborted "Open event was prevented") in
  stack w' = stack w
  /\ List.length (stack w') = List.length (stack w)
  /\ (forall l, ~ In (Peel l) (calls dom c a w)
                /\ ~ In (Push l) (calls dom c a w))
  /\ (In (Emit "up:layer:open") (calls dom c a w) <-> result = aborted)
  /\ (contentOf dom c w <> None -> baseLayerIsClosed a = false ->
      result = aborted)
  /\ (result = aborted \/ result = inl Error.NotApplicable).
Proof.
  intros Hp result w' aborted. unfold result, w', aborted.
  rewrite calls_outcome, execute_outcome, Hp.
  unfold callsUntilOpenEvent, contentCall.
  destruct (contentOf dom c w) as [content|];
    [destruct (baseLayerIsClosed a)|];
    destruct (String.eqb (target c) ":none");
    cbn [fst snd after stack In];
    (split; [reflexivity|]); (split; [reflexivity|]);
    (split; [intros l; split; intros Hin; intuition discriminate|]);
    (split;
     [split;
      [intros Hin; try reflexivity; intuition discriminate
      |intros E; try discriminate E; tauto]|]);
    (split; [intros Hn Hb; congruence|]); auto.
Qed.

(** *** C2 *)

(** C2.  In every run that pushes a layer, the call before the push is
    the peel of the base layer, and the run has no other push: the
    layer is pushed on the stack that the peel left, in which the base
    layer has no live child.  After the run the new layer is the one
    live child of the base layer, and when every layer had at most one
    live child before the run, every layer has at most one after it. *)
Theorem C2_peel_before_push
        (c : t dom) (a : answers) (w : world dom) (l : nat) :
  In (Push l) (calls dom c a w) ->
  let w' := snd (execute dom c a w) in
  let base := baseLayer c in
  (exists before later,
      calls dom c a w = before ++ Peel base :: Push l :: later
      /\ (forall l', ~ In (Push l') before)
      /\ (forall l', ~ In (Push l') later))
  /\ liveChildren base (peel base (stack w)) = []
  /\ (exists new,
         stack w' = push (peel base (stack w)) new
         /\ id new = l
         /\ liveChildren base (stack w') = [new])
  /\ (singleChild (stack w) -> singleChild (stack w')).
Proof.
  intros Hin w' base.
  assert (Hnew : exists new,
             stack w' = push (peel base (stack w)) new
             /\ id new = l
             /\ isLiveChildOf base new = true
             /\ exists later,
                 calls dom c a w
                 = callsUntilOpenEvent dom c
                     ++ Peel base :: Push l :: later
                 /\ forall l', ~ In (Push l') later).
  { unfold w'. revert Hin. rewrite calls_outcome, execute_outcome.
    unfold callsUntilOpenEvent, callsUntilChangeRequests, callsUntilEnd,
      contentCall.
    destruct (contentOf dom c w) as [content|];
      [destruct (baseLayerIsClosed a);
       [|destruct (openEventPrevented a);
         [|destruct (layerChangeRequestsAbort a);
           [|destruct (layerClosedAfterOpened a)]]]|];
      destruct (String.eqb (target c) ":none");
      cbv zeta; cbn [fst snd after stack In app]; intros Hin;
      try (exfalso; intuition discriminate);
      try rewrite clearOpening_pushed;
      (assert (E : l = id (builtLayer dom c w))
        by (intuition (try discriminate; congruence)));
      subst l;
      eexists; (split; [reflexivity|]); (split; [reflexivity|]);
      (split;
       [unfold isLiveChildOf, isChildOf, isLive, base;
        cbn [parent state set_state builtLayer];
        now rewrite Nat.eqb_refl|]);
      eexists; (split; [reflexivity|]);
      intros l' H'; cbn [In] in H'; intuition discriminate. }
  destruct Hnew as [new [Hs [Hid [Hlive [later [Hc Hl]]]]]].
  assert (Hbase : liveChildren base (stack w') = [new]).
  { rewrite Hs, LayerStackFacts.liveChildren_push,
      LayerStackFacts.liveChildren_peel, Hlive. reflexivity. }
  split; [|split; [|split]].
  - exists (callsUntilOpenEvent dom c), later.
    split; [exact Hc|]. split; [|exact Hl].
    intros l' H'. unfold callsUntilOpenEvent, contentCall in H'.
    destruct (String.eqb (target c) ":none"); cbn [In] in H';
      intuition discriminate.
  - apply LayerStackFacts.liveChildren_peel.
  - exists new. auto.
  - intros Hone other.
    destruct (Nat.eq_dec other base) as [->|Hne].
    + now rewrite Hbase.
    + rewrite Hs, LayerStackFacts.liveChildren_push.
      assert (Hn : isLiveChildOf other new = false).
      { unfold isLiveChildOf, isChildOf in *.
        destruct (parent new) as [p|]; [|reflexivity].
        apply andb_true_iff in Hlive. destruct Hlive as [Hp _].
        apply Nat.eqb_eq in Hp. subst p.
        apply andb_false_iff. left. apply Nat.eqb_neq. congruence. }
      rewrite Hn, app_nil_r,
        (LayerStackFacts.liveChildren_peel_other base other _ Hne).
      apply Hone.
Qed.

(** *** C9 *)

(** C9.  When the target is ":none", [execute] asks the response
    document for no fragment: the content is the new element
    [up-none], made by the first call of the run, and no call of the
    run is a [select].  Such a run throws NotApplicable exactly when
    the base layer is closed, and a run that returns has the [up-none]
    element, finalized, as its only fragment. *)
Theorem C9_none_target_needs_no_fragment
        (c : t dom) (a : answers) (w : world dom) :
  target c = ":none" ->
  let result := fst (execute dom c a w) in
  let w' := snd (execute dom c a w) in
  contentOf dom c w = Some (Dom.createElement dom "up-none")
  /\ hd_error (calls dom c a w) = Some (CreateElement "up-none")
  /\ (forall selector, ~ In (Select selector) (calls dom c a w))
  /\ (result = inl Error.NotApplicable <-> baseLayerIsClosed a = true)
  /\ (forall r,
         result = inr r ->
         fragments r
         = [ResponseDoc.finalizeElement
              dom (responseDoc w') (Dom.createElement dom "up-none")]).
Proof.
  intros Ht result w'. unfold result, w'.
  assert (Hc : contentOf dom c w = Some (Dom.createElement dom "up-none"))
    by (unfold contentOf; now rewrite Ht).
  rewrite calls_outcome, execute_outcome, Hc.
  unfold callsUntilOpenEvent, callsUntilChangeRequests, callsUntilEnd,
    contentCall.
  rewrite Ht. cbn [String.eqb Ascii.eqb Bool.eqb].
  destruct (baseLayerIsClosed a);
    [|destruct (openEventPrevented a);
      [|destruct (layerChangeRequestsAbort a);
        [|destruct (layerClosedAfterOpened a)]]];
    cbv zeta; cbn [fst snd hd_error app In];
    (split; [reflexivity|]); (split; [reflexivity|]);
    (split; [intros selector Hin; intuition discriminate|]);
    (split; [split; intros E; (reflexivity || discriminate E)|]);
    intros r E; inversion E; reflexivity.
Qed.
End WithDom.

(** On the small DOM, over the stack of a root layer and its open
    overlay: a prevented open event leaves the two layers as they are. *)
Lemma C1_prevented_open_event_leaves_stack_witness :
  let w := ToyDom.world [ToyDom.rootLayer; ToyDom.overlay] ToyDom.page in
  let a := Build_answers false true false false in
  let run := execute ToyDom.api (ToyDom.change ".card") a w in
  fst run = inl (Error.Aborted "Open event was prevented")
  /\ stack (snd run) = [ToyDom.rootLayer; ToyDom.overlay].
Proof.
  intros w a run.
  destruct (C1_prevented_open_event_leaves_stack
              ToyDom.api (ToyDom.change ".card") a w eq_refl)
    as [Hs [_ [_ [_ [Hr _]]]]].
  split.
  - apply Hr; [discriminate | reflexivity].
  - exact Hs.
Defined.

(** A run that is not stopped: the overlay begins to close, then the
    new layer is pushed. *)
Lemma C2_peel_before_push_witness :
  let w := ToyDom.world [ToyDom.rootLayer; ToyDom.overlay] ToyDom.page in
  let a := Build_answers false false false false in
  let run := execute ToyDom.api (ToyDom.change ".card") a w in
  let popup :=
    {| id := 2; parent := Some 0; LayerStack.mode := "popup";
       state := Open |} in
  In (Push 2) (calls ToyDom.api (ToyDom.change ".card") a w)
  /\ stack (snd run)
     = [ToyDom.rootLayer; set_state ToyDom.overlay Closing; popup]
  /\ liveChildren 0 (stack (snd run)) = [popup]
  /\ singleChild (stack (snd run)).
Proof.
  intros w a run popup.
  assert (Hin : In (Push 2) (calls ToyDom.api (ToyDom.change ".card") a w))
    by (vm_compute; tauto).
  assert (Hone : singleChild (stack w)).
  { intros [|base]; cbn; auto. }
  destruct (C2_peel_before_push ToyDom.api (ToyDom.change ".card") a w 2 Hin)
    as [_ [_ [[new [Hs [_ Hl]]] Hkept]]].
  split; [exact Hin|]. split; [reflexivity|].
  split; [reflexivity|]. exact (Hkept Hone).
Defined.

(** The target ":none" on a page without content for it, with the base
    layer open and with the base layer closed. *)
Lemma C9_none_target_needs_no_fragment_witness :
  let w := ToyDom.world [ToyDom.rootLayer] ToyDom.page in
  let opened :=
    execute ToyDom.api (ToyDom.change ":none")
            (Build_answers false false false false) w in
  let closed :=
    execute ToyDom.api (ToyDom.change ":none")
            (Build_answers true false false false) w in
  let r :=
    Build_RenderResult ToyDom.api
                       {| id := 1; parent := Some 0;
                          LayerStack.mode := "popup"; state := Open |}
                       [ToyDom.El "up-none" "" []] in
  (fst opened = inr r /\ fragments r = [ToyDom.El "up-none" "" []])
  /\ fst closed = inl Error.NotApplicable.
Proof.
  intros w opened closed r. split.
  - assert (E : fst opened = inr r) by (vm_compute; reflexivity).
    split; [exact E|].
    exact (proj2 (proj2 (proj2 (proj2
             (C9_none_target_needs_no_fragment
                ToyDom.api (ToyDom.change ":none")
                (Build_answers false false false false) w eq_refl))))
             r E).
  - apply (proj1 (proj2 (proj2 (proj2
             (C9_none_target_needs_no_fragment
                ToyDom.api (ToyDom.change ":none")
                (Build_answers true false false false) w eq_refl))))).
    reflexivity.
Defined.

(** *** More on what a run does *)

Section Runs.
Variable dom : Dom.api.

(** The cases of [execute_outcome], one goal for each. *)
Ltac run_cases c a w :=
  rewrite ?calls_outcome, ?execute_outcome;
  destruct (contentOf dom c w) as [content|] eqn:Hcontent;
  [destruct (baseLayerIsClosed a) eqn:Hclosed;
   [|destruct (openEventPrevented a) eqn:Hprevented;
     [|destruct (layerChangeRequestsAbort a) eqn:Hrequests;
       [|destruct (layerClosedAfterOpened a) eqn:Hafter]]]|];
  cbv zeta; cbn [fst snd after stack responseDoc trace].

(** What a run that returns has done.  The layer it returns is the layer
    that [buildLayer] built, now open, with the base layer as its parent
    and with an identity that no layer of the stack had; it is the top of
    the stack, which is one longer than before.  The only fragment is the
    content, finalized.  Every call of the protocol was made, in order. *)
Theorem returned_layer_is_on_top
        (c : t dom) (a : answers) (w : world dom) (r : RenderResult dom) :
  fst (execute dom c a w) = inr r ->
  let w' := snd (execute dom c a w) in
  layer r = set_state (builtLayer dom c w) Open
  /\ parent (layer r) = Some (baseLayer c)
  /\ state (layer r) = Open
  /\ (forall l, In l (stack w) -> id l <> id (layer r))
  /\ stack w' = push (peel (baseLayer c) (stack w)) (layer r)
  /\ (exists content,
         contentOf dom c w = Some content
         /\ fragments r
            = [ResponseDoc.finalizeElement dom (responseDoc w') content])
  /\ calls dom c a w = allCalls dom c w.
Proof.
  intros E w'. unfold w'. revert E.
  run_cases c a w; intros E; try discriminate E.
  inversion E; subst r; clear E. cbn [layer fragments].
  rewrite clearOpening_pushed.
  split; [reflexivity|]. split; [reflexivity|]. split; [reflexivity|].
  split.
  { intros l Hl. cbn [id set_state builtLayer].
    now apply LayerStackFacts.freshId_fresh. }
  split; [reflexivity|]. split; [|reflexivity].
  exists content. split; reflexivity.
Qed.

(** A run that throws NotApplicable has touched nothing: the stack and the
    response document are as before (the title was not asked for) and no
    event was emitted.  A run throws NotApplicable exactly when there is
    no content for the target or the base layer is closed. *)
Theorem not_applicable_touches_nothing
        (c : t dom) (a : answers) (w : world dom) :
  let result := fst (execute dom c a w) in
  let w' := snd (execute dom c a w) in
  (result = inl Error.NotApplicable
   <-> contentOf dom c w = None \/ baseLayerIsClosed a = true)
  /\ (result = inl Error.NotApplicable ->
      stack w' = stack w
      /\ responseDoc w' = responseDoc w
      /\ ~ In GetTitle (calls dom c a w)
      /\ forall name, ~ In (Emit name) (calls dom c a w)).
Proof.
  intros result w'. unfold result, w'.
  pose proof (contentCall_is_first dom c) as Hfirst.
  run_cases c a w;
    (split;
     [split;
      [intros E; try discriminate E; auto
      |intros [E|E]; try discriminate E; reflexivity]|]);
    intros E; try discriminate E;
    (split; [reflexivity|]); (split; [reflexivity|]);
    (split; [|intros name]); cbn [In]; intros Hin;
    destruct Hfirst as [Hf|Hf]; rewrite Hf in Hin;
    intuition discriminate.
Qed.

(** The calls of every run are a beginning of the calls of a run that
    nothing stops: a checkpoint only cuts the protocol short.  So whenever
    the layer is compiled ([up.hello]), the history of the layer was
    updated before, and the content was finalized before; and whenever
    [up:layer:opened] is emitted, the layer was compiled before. *)
Theorem calls_follow_the_protocol (c : t dom) (a : answers) (w : world dom) :
  (exists rest, allCalls dom c w = calls dom c a w ++ rest)
  /\ (In Hello (calls dom c a w) ->
      exists before between later,
        calls dom c a w
        = before ++ UpdateHistory :: between ++ Hello :: later
        /\ In FinalizeElement between)
  /\ (In (Emit "up:layer:opened") (calls dom c a w) ->
      exists before later,
        calls dom c a w = before ++ Hello :: later
        /\ In (Emit "up:layer:opened") later).
Proof.
  pose proof (contentCall_is_first dom c) as Hfirst.
  unfold allCalls.
  run_cases c a w; unfold callsUntilOpenEvent, callsUntilChangeRequests,
    callsUntilEnd; cbn [app].
  - split; [eexists; reflexivity|].
    split; intros Hin; exfalso; cbn [In] in Hin;
      destruct Hfirst as [Hf|Hf]; rewrite Hf in Hin; intuition discriminate.
  - split; [eexists; reflexivity|].
    split; intros Hin; exfalso; cbn [In] in Hin;
      destruct Hfirst as [Hf|Hf]; rewrite Hf in Hin; intuition discriminate.
  - split; [eexists; reflexivity|]. split.
    + intros _.
      exists [contentCall dom c; IsClosed (baseLayer c); Puts; GetTitle; Build;
              Emit "up:layer:open"; Peel (baseLayer c);
              Push (id (builtLayer dom c w)); CreateElements; SetupHandlers;
              SaveHistory],
        [SetSource; FinalizeElement], [HandleLayerChangeRequests].
      split; [reflexivity | cbn; auto].
    + intros Hin. exfalso. cbn [In] in Hin.
      destruct Hfirst as [Hf|Hf]; rewrite Hf in Hin; intuition discriminate.
  - split; [exists []; reflexivity|]. split.
    + intros _.
      exists [contentCall dom c; IsClosed (baseLayer c); Puts; GetTitle; Build;
              Emit "up:layer:open"; Peel (baseLayer c);
              Push (id (builtLayer dom c w)); CreateElements; SetupHandlers;
              SaveHistory],
        [SetSource; FinalizeElement],
        [HandleLayerChangeRequests; HandleScroll; StartOpenAnimation;
         Emit "up:layer:opened"; AbortWhenLayerClosed].
      split; [reflexivity | cbn; auto].
    + intros _.
      exists [contentCall dom c; IsClosed (baseLayer c); Puts; GetTitle; Build;
              Emit "up:layer:open"; Peel (baseLayer c);
              Push (id (builtLayer dom c w)); CreateElements; SetupHandlers;
              SaveHistory; UpdateHistory; SetSource; FinalizeElement],
        [HandleLayerChangeRequests; HandleScroll; StartOpenAnimation;
         Emit "up:layer:opened"; AbortWhenLayerClosed].
      split; [reflexivity | cbn; auto].
  - split; [exists []; reflexivity|]. split.
    + intros _.
      exists [contentCall dom c; IsClosed (baseLayer c); Puts; GetTitle; Build;
              Emit "up:layer:open"; Peel (baseLayer c);
              Push (id (builtLayer dom c w)); CreateElements; SetupHandlers;
              SaveHistory],
        [SetSource; FinalizeElement],
        [HandleLayerChangeRequests; HandleScroll; StartOpenAnimation;
         Emit "up:layer:opened"; AbortWhenLayerClosed].
      split; [reflexivity | cbn; auto].
    + intros _.
      exists [contentCall dom c; IsClosed (baseLayer c); Puts; GetTitle; Build;
              Emit "up:layer:open"; Peel (baseLayer c);
              Push (id (builtLayer dom c w)); CreateElements; SetupHandlers;
              SaveHistory; UpdateHistory; SetSource; FinalizeElement],
        [HandleLayerChangeRequests; HandleScroll; StartOpenAnimation;
         Emit "up:layer:opened"; AbortWhenLayerClosed].
      split; [reflexivity | cbn; auto].
  - split; [eexists; reflexivity|].
    split; intros Hin; exfalso; cbn [In] in Hin;
      destruct Hfirst as [Hf|Hf]; rewrite Hf in Hin; intuition discriminate.
Qed.

Lemma responseDoc_after_run (c : t dom) (a : answers) (w : world dom) :
  responseDoc (snd (execute dom c a w))
  = if existsb (fun e => match e with GetTitle => true | _ => false end)
               (calls dom c a w)
    then snd (ResponseDoc.getTitle dom (responseDoc w))
    else responseDoc w.
Proof.
  pose proof (contentCall_is_first dom c) as Hfirst.
  run_cases c a w; unfold callsUntilOpenEvent, callsUntilChangeRequests,
    callsUntilEnd; cbn [app existsb orb];
    destruct Hfirst as [Hf|Hf]; rewrite Hf; reflexivity.
Qed.

(** The title of a response document is looked up once, however many
    layers are opened from it.  A run that asks for the title leaves the
    document with the title computed; a further run on the same document,
    for any target and with any answers, does not query its root again. *)
Theorem title_is_parsed_once
        (c1 c2 : t dom) (a1 a2 : answers) (w : world dom) :
  let w1 := snd (execute dom c1 a1 w) in
  let w2 := snd (execute dom c2 a2 w1) in
  In GetTitle (calls dom c1 a1 w) ->
  ResponseDoc.titleParsed dom (responseDoc w1) = true
  /\ responseDoc w2 = responseDoc w1
  /\ (ResponseDoc.titleParsed dom (responseDoc w) = false ->
      ResponseDoc.rootQueries dom (responseDoc w2)
      = ResponseDoc.rootQueries dom (responseDoc w) ++ ["head title"]).
Proof.
  intros w1 w2 Hin.
  assert (H1 : responseDoc w1
               = snd (ResponseDoc.getTitle dom (responseDoc w))).
  { unfold w1. rewrite responseDoc_after_run.
    destruct (existsb _ (calls dom c1 a1 w)) eqn:E; [reflexivity|].
    exfalso. rewrite <- not_true_iff_false in E. apply E.
    apply existsb_exists. exists GetTitle. auto. }
  assert (Hp : ResponseDoc.titleParsed dom (responseDoc w1) = true).
  { rewrite H1. unfold ResponseDoc.getTitle.
    destruct (ResponseDoc.titleParsed dom (responseDoc w)) eqn:E;
      cbn [negb snd ResponseDoc.titleParsed]; auto. }
  assert (H2 : responseDoc w2 = responseDoc w1).
  { unfold w2. rewrite responseDoc_after_run.
    destruct (existsb _ (calls dom c2 a2 w1)); [|reflexivity].
    now rewrite (ResponseDocFacts.getTitle_cached dom _ Hp). }
  split; [exact Hp|]. split; [exact H2|].
  intros Hfresh. rewrite H2, H1.
  apply (ResponseDocFacts.getTitle_first dom _ Hfresh).
Qed.
End Runs.

(** Over the stack of a root layer and its open overlay, a run whose
    response closes the new layer throws, and the new layer stays on the
    stack. *)
Lemma returned_layer_is_on_top_witness :
  let w := ToyDom.world [ToyDom.rootLayer; ToyDom.overlay] ToyDom.page in
  let a := Build_answers false false false false in
  let run := execute ToyDom.api (ToyDom.change ".card") a w in
  let popup :=
    {| id := 2; parent := Some 0%nat; LayerStack.mode := "popup";
       state := Open |} in
  let r := Build_RenderResult ToyDom.api popup [ToyDom.El ".card" "Hello" []] in
  fst run = inr r
  /\ stack (snd run)
     = push (peel 0 [ToyDom.rootLayer; ToyDom.overlay]) popup.
Proof.
  intros w a run popup r.
  assert (E : fst run = inr r) by (vm_compute; reflexivity).
  split; [exact E|].
  exact (proj1 (proj2 (proj2 (proj2 (proj2
           (returned_layer_is_on_top
              ToyDom.api (ToyDom.change ".card") a w r E)))))).
Defined.

(** A target that the page does not have. *)
Lemma not_applicable_touches_nothing_witness :
  let w := ToyDom.world [ToyDom.rootLayer] ToyDom.page in
  let a := Build_answers false false false false in
  let run := execute ToyDom.api (ToyDom.change ".missing") a w in
  fst run = inl Error.NotApplicable
  /\ responseDoc (snd run) = ToyDom.doc ToyDom.page.
Proof.
  intros w a run.
  destruct (not_applicable_touches_nothing
              ToyDom.api (ToyDom.change ".missing") a w) as [Hiff Hsame].
  assert (E : fst run = inl Error.NotApplicable)
    by (apply Hiff; left; reflexivity).
  split; [exact E|].
  exact (proj1 (proj2 (Hsame E))).
Defined.

Lemma calls_follow_the_protocol_witness :
  let w := ToyDom.world [ToyDom.rootLayer] ToyDom.page in
  let a := Build_answers false false true false in
  exists before between later,
    calls ToyDom.api (ToyDom.change ".card") a w
    = before ++ UpdateHistory :: between ++ Hello :: later
    /\ In FinalizeElement between.
Proof.
  intros w a.
  apply (proj1 (proj2
           (calls_follow_the_protocol ToyDom.api (ToyDom.change ".card") a w))).
  vm_compute. tauto.
Defined.

(** Two layers opened from one response document. *)
Lemma title_is_parsed_once_witness :
  let w := ToyDom.world [ToyDom.rootLayer] ToyDom.page in
  let a := Build_answers false false false false in
  let w1 := snd (execute ToyDom.api (ToyDom.change ".card") a w) in
  let w2 := snd (execute ToyDom.api (ToyDom.change ":none") a w1) in
  ResponseDoc.rootQueries _ (responseDoc w2) = ["head title"].
Proof.
  intros w a w1 w2.
  assert (Hin : In GetTitle (calls ToyDom.api (ToyDom.change ".card") a w))
    by (vm_compute; tauto).
  exact (proj2 (proj2
           (title_is_parsed_once ToyDom.api (ToyDom.change ".card")
                                 (ToyDom.change ":none") a a w Hin))
           eq_refl).
Defined.
End OpenLayerFacts.

(** ** up.util.memoize *)

Module MemoizeFacts.
Import Memoize.

Section WithFunction.
Variables Args Value State : Type.
Variable func : Args -> State -> (Error.t + option Value) * State.

(** The function is run by the first call only.  Every call after the
    first one, with whatever arguments and in whatever state, returns the
    value that the first call returned and leaves the state as it is; when
    the first call threw, the later calls do not throw and return
    [undefined], because the flag is set before the function is run. *)
Theorem memoize_runs_the_function_once
        (args args' : Args) (s s' : State) :
  let first := call _ _ _ func (memoize _) args s in
  let m := fst (snd first) in
  fst first = fst (func args s)
  /\ snd (snd first) = snd (func args s)
  /\ call _ _ _ func m args' s'
     = (inr match fst first with
            | inr v => v
            | inl _ => None
            end,
        (m, s')).
Proof.
  unfold call, memoize. cbn [cached cachedValue].
  destruct (func args s) as [[e|v] s1]; cbn [fst snd cached cachedValue];
    auto.
Qed.
End WithFunction.
End MemoizeFacts.

(** ** up.util: lists *)

Module UtilListFacts.
Import UtilList.
Local Open Scope nat_scope.
Local Open Scope list_scope.

(** *** [map], [every], [some] and the index they pass *)

Lemma mapFrom_nth {A B} (block : A -> nat -> B) (array : list A) :
  forall index i,
    nth_error (mapFrom index array block) i
    = option_map (fun item => block item (index + i)) (nth_error array i).
Proof.
  induction array as [|item rest IH]; intros index i.
  - now destruct i.
  - destruct i as [|i]; cbn [mapFrom nth_error option_map].
    + now rewrite Nat.add_0_r.
    + rewrite IH. now rewrite Nat.add_succ_r.
Qed.

Lemma mapFrom_length {A B} (block : A -> nat -> B) (array : list A) :
  forall index, List.length (mapFrom index array block) = List.length array.
Proof.
  induction array as [|item rest IH]; intros index; cbn; auto.
Qed.

Lemma map_mapFrom {A B} (block : A -> nat -> B) (array : list A) :
  map array block = mapFrom 0 array block.
Proof.
  unfold map. now destruct array.
Qed.

(** [map] calls the block with each item and the position of the item:
    the result is as long as the array, and its [i]-th item is what the
    block returns for the [i]-th item of the array and [i]. *)
Theorem map_passes_the_position {A B} (block : A -> nat -> B)
        (array : list A) (i : nat) :
  List.length (map array block) = List.length array
  /\ nth_error (map array block) i
     = option_map (fun item => block item i) (nth_error array i).
Proof.
  rewrite map_mapFrom. split.
  - apply mapFrom_length.
  - apply mapFrom_nth.
Qed.

Lemma everyFrom_spec {A} (tester : A -> nat -> bool) (items : list A) :
  forall index,
    everyFrom index items tester = true
    <-> forall i x, nth_error items i = Some x -> tester x (index + i) = true.
Proof.
  induction items as [|element rest IH]; intros index; cbn [everyFrom].
  - split; [|reflexivity]. intros _ i x H. now destruct i.
  - destruct (tester element index) eqn:E.
    + rewrite IH. split.
      * intros H [|i] x Hx; cbn in Hx.
        -- inversion Hx; subst. now rewrite Nat.add_0_r.
        -- rewrite Nat.add_succ_r. now apply H.
      * intros H i x Hx. specialize (H (S i) x Hx).
        now rewrite Nat.add_succ_r in H.
    + split; [discriminate|]. intros H.
      specialize (H 0 element eq_refl). rewrite Nat.add_0_r in H. congruence.
Qed.

Lemma findResultFrom_none {A R} (tester : A -> nat -> option R)
      (items : list A) :
  forall index,
    findResultFrom index items tester = None
    <-> forall i x, nth_error items i = Some x -> tester x (index + i) = None.
Proof.
  induction items as [|element rest IH]; intros index; cbn [findResultFrom].
  - split; [|reflexivity]. intros _ i x H. now destruct i.
  - destruct (tester element index) eqn:E.
    + split; [discriminate|]. intros H.
      specialize (H 0 element eq_refl). rewrite Nat.add_0_r in H. congruence.
    + rewrite IH. split.
      * intros H [|i] x Hx; cbn in Hx.
        -- inversion Hx; subst. now rewrite Nat.add_0_r.
        -- rewrite Nat.add_succ_r. now apply H.
      * intros H i x Hx. specialize (H (S i) x Hx).
        now rewrite Nat.add_succ_r in H.
Qed.

(** [every] answers true exactly when the tester is true of every item
    with its position, and [some] exactly when the tester is truthy of some
    item with its position; so on an empty list [every] is true and [some]
    is false. *)
Theorem every_and_some {A R} (items : list A)
        (all : A -> nat -> bool) (any : A -> nat -> option R) :
  (every items all = true
   <-> forall i x, nth_error items i = Some x -> all x i = true)
  /\ (some items any = false
      <-> forall i x, nth_error items i = Some x -> any x i = None).
Proof.
  split.
  - apply (everyFrom_spec all items 0).
  - unfold some, findResult.
    rewrite <- (findResultFrom_none any items 0).
    destruct (findResultFrom 0 items any); split; congruence.
Qed.

(** [findInList] returns the first item that passes the tester: the items
    before it do not pass.  It returns [undefined] exactly when no item
    passes. *)
Theorem find_returns_the_first_match {A} (items : list A)
        (tester : A -> bool) :
  (forall x,
      findInList items tester = Some x ->
      exists before later,
        items = before ++ x :: later
        /\ tester x = true
        /\ forall y, In y before -> tester y = false)
  /\ (findInList items tester = None
      <-> forall y, In y items -> tester y = false).
Proof.
  induction items as [|element rest [IHsome IHnone]]; cbn [findInList].
  - split; [discriminate|]. split; [intros _ y []|reflexivity].
  - destruct (tester element) eqn:E.
    + split.
      * intros x H. inversion H; subst x.
        exists [], rest. split; [reflexivity|]. split; [exact E|].
        intros y [].
      * split; [discriminate|]. intros H.
        rewrite (H element (or_introl eq_refl)) in E. discriminate.
    + split.
      * intros x H. destruct (IHsome x H) as [before [later [Hl [Ht Hb]]]].
        exists (element :: before), later. rewrite Hl.
        split; [reflexivity|]. split; [exact Ht|].
        intros y [<-|Hy]; auto.
      * rewrite IHnone. split.
        -- intros H y [<-|Hy]; auto.
        -- intros H y Hy. apply H. now right.
Qed.

Lemma find_returns_the_first_match_witness :
  exists before later,
    [1; 4; 6; 8] = before ++ 4 :: later
    /\ Nat.even 4 = true
    /\ forall y, In y before -> Nat.even y = false.
Proof.
  apply (proj1 (find_returns_the_first_match [1; 4; 6; 8] Nat.even) 4).
  reflexivity.
Defined.

(** *** [times] *)

(** [times(count, block)] returns what the block returns for 0, 1, ...,
    [count - 1] when [count] is at least 1.  For a [count] of 0 the range
    [0..(count - 1)] runs down from 0 to -1 and the block is called twice;
    in general a [count] below 1 gives [2 - count] calls. *)
Theorem times_counts_down_below_one {B} (count : Z) (block : Z -> B) :
  ((1 <= count)%Z ->
   times count block
   = List.map (fun i => block (Z.of_nat i)) (seq 0 (Z.to_nat count)))
  /\ ((count < 1)%Z ->
      List.length (times count block) = Z.to_nat (2 - count))
  /\ times 0 block = [block 0%Z; block (-1)%Z].
Proof.
  unfold times, range. split; [|split].
  - intros H. destruct (0 <=? count - 1)%Z eqn:E; [|lia].
    rewrite List.map_map.
    replace (count - 1 - 0 + 1)%Z with count by lia.
    reflexivity.
  - intros H. destruct (0 <=? count - 1)%Z eqn:E; [lia|].
    rewrite !length_map, length_seq. f_equal. lia.
  - reflexivity.
Qed.

Lemma times_counts_down_below_one_witness :
  times 3 (fun i => i) = [0; 1; 2]%Z
  /\ List.length (times (-1) (fun i => i)) = 3.
Proof.
  split.
  - apply (proj1 (times_counts_down_below_one 3 (fun i => i))). lia.
  - apply (proj1 (proj2 (times_counts_down_below_one (-1) (fun i => i)))).
    lia.
Defined.

(** *** [filterList] and [reject] *)



(** The matches that were found before stay in front. *)
Lemma filterListWith_matches {A St} (tester : A -> nat -> St -> bool * St)
      (items : list A) :
  forall index matches s,
    eachFrom index items (collect tester) (matches, s)
    = (matches ++ fst (eachFrom index items (collect tester) ([], s)),
       snd (eachFrom index items (collect tester) ([], s))).
Proof.
  induction items as [|element rest IH]; intros index matches s.
  - cbn. now rewrite app_nil_r.
  - cbn [eachFrom]. unfold collect at 2 4 6.
    destruct (tester element index s) as [[|] s1].
    + rewrite (IH (S index) (matches ++ [element]) s1).
      rewrite (IH (S index) ([] ++ [element]) s1).
      cbn [fst snd app]. now rewrite <- app_assoc.
    + apply IH.
Qed.

Lemma collect_shift {A St} (tester : A -> nat -> St -> bool * St)
      (items : list A) :
  forall index state,
    eachFrom (S index) items (collect tester) state
    = eachFrom index items (collect (fun x i => tester x (S i))) state.
Proof.
  induction items as [|element rest IH]; intros index state;
    cbn [eachFrom].
  - reflexivity.
  - rewrite IH. reflexivity.
Qed.

Lemma filterList_cons {A} (tester : A -> nat -> bool) element
      (rest : list A) :
  filterList (element :: rest) tester
  = (if tester element 0 then [element] else [])
      ++ filterList rest (fun x i => tester x (S i)).
Proof.
  unfold filterList, filterListWith, each. cbn [eachFrom].
  rewrite collect_shift. unfold collect at 2.
  destruct (tester element 0).
  - rewrite filterListWith_matches. reflexivity.
  - reflexivity.
Qed.

Lemma filterList_filter {A} (f : A -> bool) (items : list A) :
  filterList items (fun element _ => f element) = filter f items.
Proof.
  induction items as [|element rest IH]; [reflexivity|].
  rewrite filterList_cons, IH. cbn [filter]. now destruct (f element).
Qed.

(** [filterList] and [reject] split a list: every item, as often as it
    occurs, is in exactly one of the two results, so their lengths add up
    to the length of the list.  A tester that does not look at the position
    makes [filterList] the filter of the list, in the order of the list. *)
Theorem filter_and_reject_split {A} (items : list A)
        (tester : A -> nat -> bool) :
  Permutation (filterList items tester ++ reject items tester) items
  /\ List.length (filterList items tester)
     + List.length (reject items tester)
     = List.length items
  /\ (forall f : A -> bool,
         filterList items (fun element _ => f element) = filter f items).
Proof.
  assert (P : Permutation (filterList items tester ++ reject items tester)
                          items).
  { unfold reject. revert tester.
    induction items as [|element rest IH]; intros tester.
    - constructor.
    - rewrite !filterList_cons.
      specialize (IH (fun x i => tester x (S i))).
      destruct (tester element 0); cbn [negb app].
      + now constructor.
      + apply Permutation_sym, Permutation_cons_app, Permutation_sym, IH. }
  split; [exact P|]. split.
  - rewrite <- length_app. now apply Permutation_length.
  - intros f. apply filterList_filter.
Qed.

(** *** [contains], [intersect] and [remove] *)

Section WithEquality.
Variable A : Type.
Variable eq_dec : forall x y : A, {x = y} + {x <> y}.

Lemma indexOfFrom_absent (array : list A) (element : A) :
  forall index,
    ~ In element array -> indexOfFrom A eq_dec index array element = (-1)%Z.
Proof.
  induction array as [|item rest IH]; intros index H; cbn [indexOfFrom].
  - reflexivity.
  - destruct (eq_dec item element) as [E|E].
    + exfalso. apply H. now left.
    + apply IH. intros Hin. apply H. now right.
Qed.

Lemma indexOfFrom_first (before later : list A) (element : A) :
  forall index,
    ~ In element before ->
    indexOfFrom A eq_dec index (before ++ element :: later) element
    = Z.of_nat (index + List.length before).
Proof.
  induction before as [|item rest IH]; intros index H; cbn [indexOfFrom app].
  - destruct (eq_dec element element); [|contradiction].
    now rewrite Nat.add_0_r.
  - destruct (eq_dec item element) as [E|E].
    + exfalso. apply H. now left.
    + rewrite IH by (intros Hin; apply H; now right).
      cbn [List.length]. f_equal. lia.
Qed.

Lemma first_occurrence (array : list A) (element : A) :
  In element array ->
  exists before later,
    array = before ++ element :: later /\ ~ In element before.
Proof.
  induction array as [|item rest IH]; intros H; [destruct H|].
  destruct (eq_dec item element) as [E|E].
  - subst item. exists [], rest. split; [reflexivity | intros []].
  - destruct H as [H|H]; [contradiction|].
    destruct (IH H) as [before [later [Hl Hb]]].
    exists (item :: before), later. split.
    + now rewrite Hl.
    + intros [Hi|Hi]; [contradiction | now apply Hb].
Qed.

Lemma contains_In (value : list A) (subValue : A) :
  contains A eq_dec value subValue = true <-> In subValue value.
Proof.
  unfold contains, indexOf. split.
  - intros H. destruct (in_dec eq_dec subValue value) as [Hin|Hout]; auto.
    rewrite (indexOfFrom_absent value subValue 0 Hout) in H. discriminate.
  - intros H. destruct (first_occurrence value subValue H)
      as [before [later [Hl Hb]]].
    rewrite Hl, (indexOfFrom_first before later subValue 0 Hb).
    apply Z.leb_le. lia.
Qed.

(** [intersect] keeps the items of the first array that the second array
    contains, in the order of the first array and as often as they occur
    there; an item is in the result exactly when it is in both arrays. *)
Theorem intersect_keeps_first_array (array1 array2 : list A) :
  intersect A eq_dec array1 array2
  = filter (contains A eq_dec array2) array1
  /\ (forall x,
         In x (intersect A eq_dec array1 array2)
         <-> In x array1 /\ In x array2).
Proof.
  assert (E : intersect A eq_dec array1 array2
              = filter (contains A eq_dec array2) array1)
    by apply filterList_filter.
  split; [exact E|].
  intros x. rewrite E, filter_In, contains_In. reflexivity.
Qed.

(** [remove] takes out the first occurrence of the element, and only that
    one, and returns the element; every other item stays where it was.  On
    an array without the element it returns [undefined] and leaves the
    array as it is. *)
Theorem remove_takes_the_first_occurrence (array : list A) (element : A) :
  (forall before later,
      array = before ++ element :: later ->
      ~ In element before ->
      remove A eq_dec array element = (Some element, before ++ later))
  /\ (~ In element array -> remove A eq_dec array element = (None, array))
  /\ (In element array ->
      List.length (snd (remove A eq_dec array element))
      = List.length array - 1).
Proof.
  assert (Hfirst : forall before later,
             array = before ++ element :: later ->
             ~ In element before ->
             remove A eq_dec array element = (Some element, before ++ later)).
  { intros before later Hl Hb. unfold remove, indexOf.
    rewrite Hl, (indexOfFrom_first before later element 0 Hb).
    cbn [Nat.add].
    destruct (0 <=? Z.of_nat (List.length before))%Z eqn:E;
      [|apply Z.leb_gt in E; lia].
    rewrite Nat2Z.id. unfold splice1. f_equal.
    rewrite firstn_app, firstn_all, Nat.sub_diag. cbn [firstn].
    rewrite app_nil_r. f_equal.
    rewrite skipn_app.
    rewrite (skipn_all2 before) by lia.
    replace (S (List.length before) - List.length before) with 1 by lia.
    reflexivity. }
  split; [exact Hfirst|]. split.
  - intros H. unfold remove, indexOf.
    now rewrite (indexOfFrom_absent array element 0 H).
  - intros H. destruct (first_occurrence array element H)
      as [before [later [Hl Hb]]].
    rewrite (Hfirst before later Hl Hb). cbn [snd].
    rewrite Hl, !length_app. cbn [List.length]. lia.
Qed.
End WithEquality.

Lemma remove_takes_the_first_occurrence_witness :
  remove nat Nat.eq_dec [3; 5; 7; 5] 5 = (Some 5, [3; 7; 5])
  /\ remove nat Nat.eq_dec [3; 7] 5 = (None, [3; 7]).
Proof.
  split.
  - apply (proj1 (remove_takes_the_first_occurrence
                    nat Nat.eq_dec [3; 5; 7; 5] 5) [3] [7; 5] eq_refl).
    intros [H|[]]. discriminate H.
  - apply (proj1 (proj2 (remove_takes_the_first_occurrence
                           nat Nat.eq_dec [3; 7] 5))).
    intros [H|[H|[]]]; discriminate H.
Defined.

(** *** [uniq] and [uniqBy] *)

Section Sets.
Variable A : Type.
Variable eq_dec : forall x y : A, {x = y} + {x <> y}.

Lemma setHas_In (set : list A) (elem : A) :
  setHas A eq_dec set elem = true <-> In elem set.
Proof.
  unfold setHas. destruct (in_dec eq_dec elem set); split; auto; discriminate.
Qed.

Lemma setAdd_In (set : list A) (elem x : A) :
  In x (setAdd A eq_dec set elem) <-> In x set \/ x = elem.
Proof.
  unfold setAdd. destruct (setHas A eq_dec set elem) eqn:E.
  - apply setHas_In in E. split; [auto|]. intros [H|H]; [auto | now subst].
  - rewrite in_app_iff. cbn [In]. intuition.
Qed.

Lemma setAdd_NoDup (set : list A) (elem : A) :
  NoDup set -> NoDup (setAdd A eq_dec set elem).
Proof.
  intros H. unfold setAdd. destruct (setHas A eq_dec set elem) eqn:E; auto.
  apply NoDup_app; auto.
  - repeat constructor. intros [].
  - intros x Hx [Hx'|[]]. subst x.
    apply setHas_In in Hx. congruence.
Qed.

Lemma arrayToSet_spec (array : list A) :
  forall set,
    NoDup set ->
    NoDup (fold_left (setAdd A eq_dec) array set)
    /\ forall x,
        In x (fold_left (setAdd A eq_dec) array set) <-> In x set \/ In x array.
Proof.
  induction array as [|elem rest IH]; intros set Hset; cbn [fold_left].
  - split; [exact Hset|]. intros x. cbn [In]. tauto.
  - destruct (IH _ (setAdd_NoDup set elem Hset)) as [Hn Hi].
    split; [exact Hn|]. intros x. rewrite Hi, setAdd_In. cbn [In].
    intuition.
Qed.

Lemma arrayToSet_NoDup_array (array : list A) :
  forall set,
    NoDup (set ++ array) ->
    fold_left (setAdd A eq_dec) array set = set ++ array.
Proof.
  induction array as [|elem rest IH]; intros set H; cbn [fold_left].
  - now rewrite app_nil_r.
  - assert (Hout : setHas A eq_dec set elem = false).
    { destruct (setHas A eq_dec set elem) eqn:E; [|reflexivity].
      apply setHas_In in E. apply NoDup_remove_2 in H.
      exfalso. apply H. apply in_or_app. now left. }
    unfold setAdd at 2. rewrite Hout.
    rewrite IH; rewrite <- app_assoc; [reflexivity | exact H].
Qed.

Lemma setToArray_id (set : list A) : setToArray A set = set.
Proof.
  unfold setToArray.
  assert (H : forall array,
             fold_left (fun array elem => array ++ [elem]) set array
             = array ++ set).
  { induction set as [|elem rest IH]; intros array; cbn [fold_left].
    - now rewrite app_nil_r.
    - rewrite IH, <- app_assoc. reflexivity. }
  apply H.
Qed.

Lemma short_NoDup (array : list A) : List.length array < 2 -> NoDup array.
Proof.
  destruct array as [|x [|y rest]]; cbn; intros H.
  - constructor.
  - repeat constructor. intros [].
  - lia.
Qed.

(** [uniq] returns the items of the array without a repetition: no item
    occurs twice in the result, and the result has exactly the items of
    the array.  An array without repetitions is returned as it is, so
    [uniq] of a result of [uniq] changes nothing. *)
Theorem uniq_removes_repetitions (array : list A) :
  NoDup (uniq A eq_dec array)
  /\ (forall x, In x (uniq A eq_dec array) <-> In x array)
  /\ (NoDup array -> uniq A eq_dec array = array)
  /\ uniq A eq_dec (uniq A eq_dec array) = uniq A eq_dec array.
Proof.
  assert (Hn : NoDup (uniq A eq_dec array)).
  { unfold uniq. destruct (List.length array <? 2) eqn:E.
    - apply short_NoDup. now apply Nat.ltb_lt.
    - rewrite setToArray_id. apply arrayToSet_spec. constructor. }
  assert (Hfix : forall l, NoDup l -> uniq A eq_dec l = l).
  { intros l H. unfold uniq. destruct (List.length l <? 2); [reflexivity|].
    rewrite setToArray_id. unfold arrayToSet.
    now rewrite arrayToSet_NoDup_array. }
  split; [exact Hn|]. split; [|split].
  - intros x. unfold uniq. destruct (List.length array <? 2); [reflexivity|].
    rewrite setToArray_id. unfold arrayToSet.
    rewrite (proj2 (arrayToSet_spec array [] (NoDup_nil A))). cbn [In]. tauto.
  - apply Hfix.
  - now apply Hfix.
Qed.

(** The loop of [uniqBy], for a mapper that does not look at the position:
    the set holds the mapped values of the matches. *)
Lemma uniqBy_loop {B} (f : B -> A) (array : list B) :
  forall index matches,
    NoDup (List.map f matches) ->
    let result :=
      eachFrom index array
               (collect (unseen A eq_dec (fun elem _ => f elem)))
               (matches, List.map f matches) in
    NoDup (List.map f (fst result))
    /\ (forall y,
           In y (List.map f (fst result))
           <-> In y (List.map f matches) \/ In y (List.map f array))
    /\ (forall x, In x (fst result) -> In x matches \/ In x array).
Proof.
  induction array as [|elem rest IH]; intros index matches Hn.
  - cbn. repeat split; auto; tauto.
  - assert (Hstep :
             collect (unseen A eq_dec (fun elem _ => f elem)) elem index
                     (matches, List.map f matches)
             = if setHas A eq_dec (List.map f matches) (f elem)
               then (matches, List.map f matches)
               else (matches ++ [elem], List.map f (matches ++ [elem]))).
    { unfold collect, unseen, setAdd.
      destruct (setHas A eq_dec (List.map f matches) (f elem));
        [reflexivity|].
      now rewrite map_app. }
    cbv zeta. cbn [eachFrom]. rewrite Hstep.
    destruct (setHas A eq_dec (List.map f matches) (f elem)) eqn:E.
    + destruct (IH (S index) matches Hn) as [H2 [H3 H4]].
      cbv zeta in H2, H3, H4.
      split; [exact H2|]. split.
      * intros y. rewrite H3. cbn [List.map In].
        apply setHas_In in E. intuition (subst; auto).
      * intros x Hx. destruct (H4 x Hx); cbn [In]; auto.
    + assert (Hn' : NoDup (List.map f (matches ++ [elem]))).
      { rewrite map_app. cbn [List.map].
        assert (Ha : setAdd A eq_dec (List.map f matches) (f elem)
                     = List.map f matches ++ [f elem])
          by (unfold setAdd; now rewrite E).
        rewrite <- Ha. now apply setAdd_NoDup. }
      destruct (IH (S index) (matches ++ [elem]) Hn') as [H2 [H3 H4]].
      cbv zeta in H2, H3, H4.
      split; [exact H2|]. split.
      * intros y. rewrite H3, map_app, in_app_iff. cbn [List.map In].
        intuition.
      * intros x Hx. destruct (H4 x Hx) as [H|H]; cbn [In]; auto.
        apply in_app_or in H. cbn [In] in H. intuition.
Qed.

(** [uniqBy], with a mapper that does not look at the position, keeps one
    item for each mapped value: the mapped values of the result do not
    repeat, they are exactly the mapped values of the array, and every
    item of the result is an item of the array. *)
Theorem uniqBy_keeps_one_item_per_value {B} (f : B -> A) (array : list B) :
  let result := uniqBy A eq_dec array (fun elem _ => f elem) in
  (2 <= List.length array -> NoDup (List.map f result))
  /\ (forall y, In y (List.map f result) <-> In y (List.map f array))
  /\ (forall x, In x result -> In x array)
  /\ (List.length array < 2 -> result = array).
Proof.
  intros result. unfold result, uniqBy.
  destruct (List.length array <? 2) eqn:E.
  - apply Nat.ltb_lt in E. repeat split; auto; lia.
  - apply Nat.ltb_ge in E. unfold filterListWith, each.
    destruct (uniqBy_loop f array 0 [] (NoDup_nil A)) as [H2 [H3 H4]].
    cbv zeta in H2, H3, H4. cbn [List.map] in H2, H3, H4.
    split; [intros _; exact H2|]. split; [|split].
    + intros y. rewrite H3. cbn [In]. tauto.
    + intros x Hx. destruct (H4 x Hx) as [[]|H]. exact H.
    + lia.
Qed.
End Sets.

Lemma uniqBy_keeps_one_item_per_value_witness :
  uniqBy nat Nat.eq_dec [(1, "a"); (2, "b"); (1, "c")]%string
         (fun elem _ => fst elem)
  = [(1, "a"); (2, "b")]%string
  /\ NoDup (List.map fst
              (uniqBy nat Nat.eq_dec [(1, "a"); (2, "b"); (1, "c")]%string
                      (fun elem _ => fst elem))).
Proof.
  split; [reflexivity|].
  apply (proj1 (uniqBy_keeps_one_item_per_value
                  nat Nat.eq_dec fst [(1, "a"); (2, "b"); (1, "c")]%string)).
  cbn. lia.
Defined.

(** *** [flatten] and [flatMap] *)

(** What was flattened before stays in front. *)
Lemma flatten_from {A} (array : list (list A + A)) :
  forall flattened,
    fold_left spread array flattened = flattened ++ flatten array.
Proof.
  unfold flatten.
  induction array as [|object rest IH]; intros flattened; cbn [fold_left].
  - now rewrite app_nil_r.
  - rewrite IH, (IH (spread [] object)).
    destruct object; cbn [spread app]; now rewrite <- app_assoc.
Qed.

(** [flatten] goes one level deep and keeps the order: an item that is a
    list is replaced by its items, which stay as they are; any other item
    stays.  So flattening an array of arrays concatenates them, an array
    without lists is unchanged, and [flatMap] with a block that returns
    lists is the concatenation of what the block returns. *)
Theorem flatten_goes_one_level {A B} (array : list (list A + A))
        (lists : list (list A)) (plain : list A)
        (items : list B) (block : B -> list A) :
  flatten array
  = List.concat (List.map (fun object =>
                        match object with
                        | inl items => items
                        | inr item => [item]
                        end)
                     array)
  /\ flatten (List.map inl lists) = List.concat lists
  /\ flatten (List.map inr plain) = plain
  /\ flatMap items (fun item _ => inl (block item)) = flat_map block items.
Proof.
  assert (H : forall array : list (list A + A),
             flatten array
             = List.concat (List.map (fun object =>
                                   match object with
                                   | inl items => items
                                   | inr item => [item]
                                   end)
                                array)).
  { induction array0 as [|object rest IH]; [reflexivity|].
    unfold flatten. cbn [fold_left]. rewrite flatten_from, IH.
    cbn [List.map List.concat app]. now destruct object. }
  split; [apply H|]. split; [|split].
  - rewrite H, List.map_map, map_id. reflexivity.
  - rewrite H, List.map_map. induction plain as [|x rest IH]; [reflexivity|].
    cbn [List.map List.concat app]. now rewrite IH.
  - unfold flatMap. rewrite H, UtilListFacts.map_mapFrom.
    rewrite flat_map_concat_map. f_equal.
    generalize 0. induction items as [|item rest IH]; intros index;
      [reflexivity|].
    cbn [mapFrom List.map]. now rewrite IH.
Qed.
End UtilListFacts.

(** ** up.util: strings *)

Module UtilStringFacts.
Import UtilString.
Local Open Scope nat_scope.
Local Open Scope char_scope.
Local Open Scope string_scope.

Lemma append_nil_r (s : string) : s ++ "" = s.
Proof.
  induction s as [|c s IH]; cbn; [reflexivity | now rewrite IH].
Qed.

Lemma append_assoc (a b c : string) : (a ++ b) ++ c = a ++ (b ++ c).
Proof.
  induction a as [|x a IH]; cbn; [reflexivity | now rewrite IH].
Qed.

Lemma length_append (a b : string) :
  String.length (a ++ b) = String.length a + String.length b.
Proof.
  induction a as [|x a IH]; cbn; [reflexivity | now rewrite IH].
Qed.

Lemma substring_all (s : string) : substring 0 (String.length s) s = s.
Proof.
  induction s as [|c s IH]; cbn; [reflexivity | now rewrite IH].
Qed.

Lemma substring_append (p t : string) :
  substring (String.length p) (String.length t) (p ++ t) = t.
Proof.
  induction p as [|c p IH]; cbn; [apply substring_all | exact IH].
Qed.

Lemma substring_split (s : string) :
  forall n m,
    n + m = String.length s -> s = substring 0 n s ++ substring n m s.
Proof.
  induction s as [|c s IH]; intros n m H; cbn in H.
  - destruct n, m; try discriminate. reflexivity.
  - destruct n as [|n].
    + cbn in H. subst m. cbn [substring append]. now rewrite substring_all.
    + cbn [substring append]. f_equal. apply IH. lia.
Qed.

(** *** [endsWith] *)

(** [endsWith(string, search)] is true exactly when the string is some
    string followed by [search]; so every string ends with the empty
    string, and no string ends with a longer one. *)
Theorem endsWith_is_suffix (str search : string) :
  endsWith str search = true <-> exists before, str = before ++ search.
Proof.
  unfold endsWith. split.
  - destruct (Nat.ltb (String.length str) (String.length search)) eqn:E;
      [discriminate|].
    apply Nat.ltb_ge in E. intros H. apply String.eqb_eq in H.
    exists (substring 0 (String.length str - String.length search) str).
    pose proof (substring_split str
                  (String.length str - String.length search)
                  (String.length search)) as Hsplit.
    rewrite H in Hsplit. apply Hsplit. lia.
  - intros [before H]. subst str. rewrite length_append.
    destruct (Nat.ltb _ _) eqn:E; [apply Nat.ltb_lt in E; lia|].
    replace (String.length before + String.length search
             - String.length search)
      with (String.length before) by lia.
    rewrite substring_append. apply String.eqb_refl.
Qed.

(** *** [escapeHTML] *)

Definition isMarkup (char : ascii) : bool :=
  Ascii.eqb char "<" || Ascii.eqb char ">"
  || Ascii.eqb char doubleQuote || Ascii.eqb char singleQuote.

Lemma allChars_append (test : ascii -> bool) (a b : string) :
  allChars test (a ++ b) = allChars test a && allChars test b.
Proof.
  induction a as [|c a IH]; cbn; [reflexivity|].
  now rewrite IH, andb_assoc.
Qed.

(** The cases of [ESCAPE_HTML_ENTITY_MAP]. *)
Lemma entity_cases (char : ascii) :
  (char = "&"%char /\ ESCAPE_HTML_ENTITY_MAP char = Some "&amp;")
  \/ (char = "<"%char /\ ESCAPE_HTML_ENTITY_MAP char = Some "&lt;")
  \/ (char = ">"%char /\ ESCAPE_HTML_ENTITY_MAP char = Some "&gt;")
  \/ (char = doubleQuote /\ ESCAPE_HTML_ENTITY_MAP char = Some "&quot;")
  \/ (char = singleQuote /\ ESCAPE_HTML_ENTITY_MAP char = Some "&#x27;")
  \/ (ESCAPE_HTML_ENTITY_MAP char = None
      /\ char <> "&"%char /\ isMarkup char = false).
Proof.
  unfold ESCAPE_HTML_ENTITY_MAP, isMarkup.
  destruct (Ascii.eqb_spec char "&"%char) as [->|H1]; [now left|].
  destruct (Ascii.eqb_spec char "<"%char) as [->|H2]; [right; now left|].
  destruct (Ascii.eqb_spec char ">"%char) as [->|H3]; [right; right; now left|].
  destruct (Ascii.eqb_spec char doubleQuote) as [->|H4];
    [right; right; right; now left|].
  destruct (Ascii.eqb_spec char singleQuote) as [->|H5];
    [right; right; right; right; now left|].
  repeat right. auto.
Qed.

(** The result of [escapeHTML] holds no angle bracket and no quote,
    whatever the string holds, and a string without the five special
    characters is returned as it is.  [escapeHTML] works character by
    character: the result for two strings in a row is the two results in a
    row. *)
Theorem escapeHTML_leaves_no_markup (a b : string) :
  allChars (fun char => negb (isMarkup char)) (escapeHTML a) = true
  /\ escapeHTML (a ++ b) = escapeHTML a ++ escapeHTML b
  /\ (allChars (fun char => negb (isMarkup char || Ascii.eqb char "&")) a
      = true ->
      escapeHTML a = a).
Proof.
  split; [|split].
  - induction a as [|char rest IH]; [reflexivity|]. cbn [escapeHTML].
    destruct (entity_cases char)
      as [[-> E]|[[-> E]|[[-> E]|[[-> E]|[[-> E]|[E [_ Hm]]]]]]];
      rewrite E; try (rewrite allChars_append, IH; reflexivity).
    cbn [allChars]. now rewrite Hm, IH.
  - induction a as [|char rest IH]; [reflexivity|].
    cbn [escapeHTML append].
    destruct (ESCAPE_HTML_ENTITY_MAP char);
      now rewrite IH, ?append_assoc.
  - induction a as [|char rest IH]; [reflexivity|].
    cbn [allChars escapeHTML]. intros H.
    apply andb_true_iff in H. destruct H as [Hc Hr].
    apply negb_true_iff, orb_false_iff in Hc. destruct Hc as [Hm Ha].
    destruct (entity_cases char)
      as [[-> E]|[[-> E]|[[-> E]|[[-> E]|[[-> E]|[E _]]]]]];
      try discriminate Hm; try discriminate Ha.
    rewrite E. now rewrite IH.
Qed.

Lemma escapeHTML_cons (char : ascii) (rest : string) :
  exists first tail,
    escapeHTML (String char rest) = String first (tail ++ escapeHTML rest)
    /\ (first = "&"%char <-> ESCAPE_HTML_ENTITY_MAP char <> None)
    /\ (ESCAPE_HTML_ENTITY_MAP char = None -> first = char /\ tail = "").
Proof.
  cbn [escapeHTML].
  destruct (entity_cases char)
    as [[-> E]|[[-> E]|[[-> E]|[[-> E]|[[-> E]|[E [Ha _]]]]]]];
    rewrite E.
  1-5: eexists _, _; split; [reflexivity|];
    split; [split; [discriminate | reflexivity] | discriminate].
  exists char, "". split; [reflexivity|]. split; [|auto].
  split; [intros H; contradiction | intros H; contradiction].
Qed.

(** [escapeHTML] loses nothing: two strings with the same escaped string
    are the same string. *)
Theorem escapeHTML_is_injective (a b : string) :
  escapeHTML a = escapeHTML b -> a = b.
Proof.
  revert b. induction a as [|x a IH]; intros [|y b] H.
  - reflexivity.
  - exfalso. destruct (escapeHTML_cons y b) as [f [t [E _]]].
    rewrite E in H. discriminate H.
  - exfalso. destruct (escapeHTML_cons x a) as [f [t [E _]]].
    rewrite E in H. discriminate H.
  - cbn [escapeHTML] in H.
    destruct (entity_cases x)
      as [[-> Ex]|[[-> Ex]|[[-> Ex]|[[-> Ex]|[[-> Ex]|[Ex [Hx _]]]]]]];
      destruct (entity_cases y)
        as [[-> Ey]|[[-> Ey]|[[-> Ey]|[[-> Ey]|[[-> Ey]|[Ey [Hy _]]]]]]];
      rewrite ?Ex, ?Ey in H; cbn [append] in H;
      try discriminate H;
      try (injection H as H; f_equal; now apply IH);
      try (injection H as Hc H; congruence).
    injection H as Hc H. subst y. f_equal. now apply IH.
Qed.

Lemma escapeHTML_is_injective_witness :
  let a := String "<" (String "a" (String ">" "")) in
  let b := String "<" ("a" ++ ">") in
  escapeHTML a = escapeHTML b /\ a = b.
Proof.
  intros a b. split; [reflexivity|].
  apply (escapeHTML_is_injective a b). reflexivity.
Defined.

(** *** [camelToKebabCase] *)

Lemma toLowerCaseChar_is_not_upper (char : ascii) :
  isUpperCase (toLowerCaseChar char) = false.
Proof.
  unfold toLowerCaseChar. destruct (isUpperCase char) eqn:E; [|exact E].
  unfold isUpperCase in *. apply andb_true_iff in E. destruct E as [L U].
  apply Nat.leb_le in L, U.
  rewrite nat_ascii_embedding by lia.
  apply andb_false_iff. right. apply Nat.leb_gt. lia.
Qed.

(** The result of [camelToKebabCase] holds no capital letter, and a
    string without a capital letter is returned as it is.  The conversion
    works character by character: the result for two strings in a row is
    the two results in a row. *)
Theorem camelToKebabCase_leaves_no_capital (str : string) :
  allChars (fun char => negb (isUpperCase char)) (camelToKebabCase str)
  = true
  /\ (allChars (fun char => negb (isUpperCase char)) str = true ->
      camelToKebabCase str = str)
  /\ (forall prefix,
        camelToKebabCase (prefix ++ str)
        = camelToKebabCase prefix ++ camelToKebabCase str).
Proof.
  split; [|split].
  - induction str as [|char rest IH]; [reflexivity|].
    cbn [camelToKebabCase]. destruct (isUpperCase char) eqn:E.
    + cbn [allChars]. rewrite toLowerCaseChar_is_not_upper, IH.
      reflexivity.
    + cbn [allChars]. now rewrite E, IH.
  - induction str as [|char rest IH]; [reflexivity|].
    cbn [allChars camelToKebabCase]. intros H.
    apply andb_true_iff in H. destruct H as [Hc Hr].
    apply negb_true_iff in Hc. rewrite Hc. now rewrite IH.
  - intros prefix. induction prefix as [|char rest IH]; [reflexivity|].
    cbn [append camelToKebabCase].
    destruct (isUpperCase char); now rewrite IH.
Qed.
End UtilStringFacts.
